(** * Reference resolution and traversal of the SEBI circular knowledge graph

    A shallow embedding of the graph builder
    ([src/circular_knowledge_graph.py]), the graph analyzer
    ([src/analyze_circular_references.py]) and the circular database search
    ([src/circular_reference_extractor.py]).

    Python strings are modelled as [String.string] over ASCII characters;
    Python sets that the code iterates are modelled as lists in their
    iteration order, Python dicts as association lists in insertion order. *)

From Stdlib Require Import List String Ascii Bool ZArith Lia Permutation Sorted.
Import ListNotations.
Open Scope string_scope.

(* ------------------------------------------------------------------ *)
(** ** Characters and string helpers (Python [str] methods on ASCII)   *)

Module Str.

(** [str.isspace] restricted to ASCII: [\t \n \v \f \r], the separators
    [\x1c]..[\x1f] and the space. *)
Definition is_space_py (c : ascii) : bool :=
  let n := nat_of_ascii c in
  ((Nat.leb 9 n) && (Nat.leb n 13)) || ((Nat.leb 28 n) && (Nat.leb n 32)).

Definition is_lower (c : ascii) : bool :=
  let n := nat_of_ascii c in ((Nat.leb 97 n) && (Nat.leb n 122)).

Definition is_upper (c : ascii) : bool :=
  let n := nat_of_ascii c in ((Nat.leb 65 n) && (Nat.leb n 90)).

Definition is_digit (c : ascii) : bool :=
  let n := nat_of_ascii c in ((Nat.leb 48 n) && (Nat.leb n 57)).

Definition is_alnum (c : ascii) : bool :=
  is_lower c || is_upper c || is_digit c.

(** [str.upper] on one ASCII character. *)
Definition upper_char (c : ascii) : ascii :=
  if is_lower c then ascii_of_nat (nat_of_ascii c - 32) else c.

(** [s.upper()] *)
Fixpoint upper (s : string) : string :=
  match s with
  | EmptyString => EmptyString
  | String c t => String (upper_char c) (upper t)
  end.

(** [s.replace(' ', '')] *)
Fixpoint remove_spaces (s : string) : string :=
  match s with
  | EmptyString => EmptyString
  | String c t =>
      if Ascii.eqb c " "%char then remove_spaces t else String c (remove_spaces t)
  end.

Fixpoint lstrip (s : string) : string :=
  match s with
  | EmptyString => EmptyString
  | String c t => if is_space_py c then lstrip t else s
  end.

Fixpoint rstrip (s : string) : string :=
  match s with
  | EmptyString => EmptyString
  | String c t =>
      match rstrip t with
      | EmptyString => if is_space_py c then EmptyString else String c EmptyString
      | r => String c r
      end
  end.

(** [s.strip()] *)
Definition strip (s : string) : string := rstrip (lstrip s).

(** [s.split(sep)[0]]: the part before the first [sep]. *)
Fixpoint before (sep : ascii) (s : string) : string :=
  match s with
  | EmptyString => EmptyString
  | String c t => if Ascii.eqb c sep then EmptyString else String c (before sep t)
  end.

(** [sep in s] for a one-character [sep]. *)
Fixpoint has_char (sep : ascii) (s : string) : bool :=
  match s with
  | EmptyString => false
  | String c t => Ascii.eqb c sep || has_char sep t
  end.

Fixpoint is_prefix (p s : string) : bool :=
  match p, s with
  | EmptyString, _ => true
  | String _ _, EmptyString => false
  | String a p', String b s' => Ascii.eqb a b && is_prefix p' s'
  end.

(** Python's substring test [needle in hay]. *)
Fixpoint contains (needle hay : string) : bool :=
  is_prefix needle hay ||
  match hay with
  | EmptyString => false
  | String _ t => contains needle t
  end.

(** [all(p(c) for c in s)] *)
Fixpoint all_chars (p : ascii -> bool) (s : string) : bool :=
  match s with
  | EmptyString => true
  | String c t => p c && all_chars p t
  end.

Definition mem (x : string) (l : list string) : bool :=
  existsb (String.eqb x) l.

End Str.

Import Str.

(* ------------------------------------------------------------------ *)
(** ** Identifier normalisations found in the code                    *)

(** [KnowledgeGraphAnalyzer._fuzzy_match_reference]:
    [ref.replace(' ', '').upper()] (the same for the node's circular number). *)
Definition norm_fuzzy (s : string) : string := upper (remove_spaces s).

(** [CircularDatabase.search]: [reference.strip().replace(' ', '').upper()]. *)
Definition norm_search (s : string) : string := upper (remove_spaces (strip s)).

(** The reference definition of the spec (section 4.1), kept separate to be
    compared with the code: drop every character that is not an ASCII letter
    or digit, then upper-case. *)
Fixpoint spec_normalize (s : string) : string :=
  match s with
  | EmptyString => EmptyString
  | String c t =>
      if is_alnum c then String (upper_char c) (spec_normalize t) else spec_normalize t
  end.

(** The characters on which the fuzzy normalisation and the reference
    normalisation agree. *)
Definition alnum_or_space (c : ascii) : bool := is_alnum c || Ascii.eqb c " ".

(* ------------------------------------------------------------------ *)
(** ** Python dicts as association lists in insertion order            *)

Module Dict.

Fixpoint get {V} (k : string) (d : list (string * V)) : option V :=
  match d with
  | [] => None
  | (k', v) :: d' => if String.eqb k k' then Some v else get k d'
  end.

(** [d[k] = v]: an existing key keeps its position, a new key goes last. *)
Fixpoint set {V} (k : string) (v : V) (d : list (string * V)) : list (string * V) :=
  match d with
  | [] => [(k, v)]
  | (k', v') :: d' => if String.eqb k k' then (k, v) :: d' else (k', v') :: set k v d'
  end.

Definition has_key {V} (k : string) (d : list (string * V)) : bool :=
  match get k d with Some _ => true | None => false end.

End Dict.

(* ------------------------------------------------------------------ *)
(** ** [CircularKnowledgeGraph] (src/circular_knowledge_graph.py)      *)

Module KG.

Record node := mk_node {
  filename : string;
  circular_no : string;
  references : list string;   (** [list(references)] *)
  reference_count : nat
}.

Record edge := mk_edge {
  source : string;
  source_circular_no : string;
  target_reference : string
  (* 'type': 'references' is constant *)
}.

Record graph := mk_graph {
  nodes : list (string * node);
  edges : list edge
}.

Definition empty : graph := mk_graph [] [].

(** [add_circular(filename, circular_no, references)]: the node is stored
    under [filename] (overwriting), one edge per reference is appended. *)
Definition add_circular (g : graph) (filename : string) (circular_no : string)
    (references : list string) : graph :=
  let node_id := filename in
  mk_graph
    (Dict.set node_id (mk_node filename circular_no references (List.length references)) (nodes g))
    (edges g ++ map (fun ref => mk_edge node_id circular_no ref) references).

(** A run of [add_circular] calls, in order. *)
Definition add_all (g : graph) (calls : list (string * string * list string)) : graph :=
  fold_left (fun g '(f, c, rs) => add_circular g f c rs) calls g.

(** Targets of the edges leaving [id], in edge order. *)
Definition edges_from (g : graph) (id : string) : list string :=
  map target_reference (filter (fun e => String.eqb (source e) id) (edges g)).

(** The document id of an [add_circular] call. *)
Definition call_key (x : string * string * list string) : string :=
  let '(f, _, _) := x in f.


(** The references passed for [id], over all calls. *)
Definition refs_for (id : string) (calls : list (string * string * list string)) : list string :=
  flat_map (fun '(f, _, rs) => if String.eqb f id then rs else []) calls.

End KG.

(* ------------------------------------------------------------------ *)
(** ** Self-reference filters of the extractors                        *)

(** [PDFCircularExtractor.extract_circular_references] in
    src/circular_knowledge_graph.py (and src/analyze_circular_references.py):
    [current_circ_short = circular_number.split('(')[0].split('-')[0].strip()
     if circular_number else ""]; a reference is skipped when
    [current_circ_short and (current_circ_short in ref or ref in current_circ_short)]. *)
Definition circ_short_kg (circular_number : string) : string :=
  if String.eqb circular_number "" then ""
  else strip (before "-"%char (before "("%char circular_number)).

Definition is_self_kg (circular_number ref : string) : bool :=
  let short := circ_short_kg circular_number in
  negb (String.eqb short "") && (contains short ref || contains ref short).

Definition filter_self_kg (circular_number : string) (refs : list string) : list string :=
  filter (fun r => negb (is_self_kg circular_number r)) refs.

(** [main] of src/circular_reference_extractor.py: the cut at ['('] and
    at ['-'] is made only when the character occurs, and there is no test
    that the short form is non-empty. *)
Definition circ_short_main (current_circular : string) : string :=
  let s1 := if has_char "("%char current_circular
            then before "("%char current_circular else current_circular in
  if has_char "-"%char s1 then strip (before "-"%char s1) else s1.

Definition is_self_main (current_circular ref : string) : bool :=
  let short := circ_short_main current_circular in
  contains short ref || contains ref short.

Definition filter_self_main (current_circular : string) (refs : list string) : list string :=
  filter (fun r => negb (is_self_main current_circular r)) refs.

(* ------------------------------------------------------------------ *)
(** ** [KnowledgeGraphAnalyzer] (src/analyze_circular_references.py)   *)

Module Analyzer.

(** A node as read back from the exported JSON; [circular_no] may be
    absent ([node.get('circular_no', '')]). *)
Record jnode := mk_jnode {
  jid : string;
  jcircular_no : option string;
  jreferences : list string
}.

Record jedge := mk_jedge { jsource : string; jtarget_reference : string }.

Record analyzer := mk_analyzer {
  nodes : list (string * jnode);
  edges : list jedge;
  reference_map : list (string * list string);
  circular_to_node : list (string * string)
}.

Definition circ_of (n : jnode) : string :=
  match jcircular_no n with Some c => c | None => "" end.

(** [load_graph] on the JSON [data['nodes']] and [data['edges']]. *)
Definition load_graph (jnodes : list jnode) (jedges : list jedge) : analyzer :=
  let nodes := fold_left (fun d n => Dict.set (jid n) n d) jnodes [] in
  let reference_map :=
    fold_left (fun d e =>
      let old := match Dict.get (jtarget_reference e) d with Some l => l | None => [] end in
      Dict.set (jtarget_reference e) (old ++ [jsource e])%list d) jedges [] in
  let circular_to_node :=
    fold_left (fun d '(node_id, n) =>
      let circ_no := circ_of n in
      if String.eqb circ_no "" then d else Dict.set circ_no node_id d) nodes [] in
  mk_analyzer nodes jedges reference_map circular_to_node.

(** [self.nodes[node_id].get('references', [])] *)
Definition node_refs (a : analyzer) (node_id : string) : list string :=
  match Dict.get node_id (nodes a) with Some n => jreferences n | None => [] end.

(** [_fuzzy_match_reference] *)
Definition fuzzy_match_reference (a : analyzer) (ref : string) : list string :=
  let ref_normalized := norm_fuzzy ref in
  map fst (filter (fun '(node_id, n) =>
    let circ_no := norm_fuzzy (circ_of n) in
    contains ref_normalized circ_no || contains circ_no ref_normalized) (nodes a)).

(** The ['type'] field of an entry of [find_direct_references]. *)
Inductive rtype :=
| InGraph (node_id : string)
| ReferencedExternal (referenced_by : list string)
| FuzzyMatchT (matches : list string)
| External.

Record detail := mk_detail { dtype : rtype; dreferences : list string }.

Definition classify (a : analyzer) (ref : string) : detail :=
  if Dict.has_key ref (nodes a) then mk_detail (InGraph ref) (node_refs a ref)
  else match Dict.get ref (circular_to_node a) with
  | Some node_id => mk_detail (InGraph node_id) (node_refs a node_id)
  | None =>
    match Dict.get ref (reference_map a) with
    | Some srcs => mk_detail (ReferencedExternal srcs) []
    | None =>
      match fuzzy_match_reference a ref with
      | [] => mk_detail External []
      | matches => mk_detail (FuzzyMatchT matches) []
      end
    end
  end.

(** [find_direct_references(circular_references)], the set iterated in
    its iteration order. *)
Definition find_direct_references (a : analyzer) (circular_references : list string)
    : list (string * detail) :=
  fold_left (fun d ref => Dict.set ref (classify a ref) d) circular_references [].

End Analyzer.

(* ------------------------------------------------------------------ *)
(** ** [find_indirect_references]: the breadth-first traversal          *)

Module Traversal.
Import Analyzer.

(** [indirect_by_level]: a [defaultdict(set)] keyed by level. *)
Definition levels := list (Z * list string).

Fixpoint lget (k : Z) (lv : levels) : option (list string) :=
  match lv with
  | [] => None
  | (k', s) :: lv' => if Z.eqb k k' then Some s else lget k lv'
  end.

Fixpoint lset (k : Z) (s : list string) (lv : levels) : levels :=
  match lv with
  | [] => [(k, s)]
  | (k', s') :: lv' => if Z.eqb k k' then (k, s) :: lv' else (k', s') :: lset k s lv'
  end.

Definition set_add (x : string) (s : list string) : list string :=
  if mem x s then s else (s ++ [x])%list.

(** [indirect_by_level[k].add(x)] *)
Definition add_level (k : Z) (x : string) (lv : levels) : levels :=
  match lget k lv with
  | Some s => lset k (set_add x s) lv
  | None => (lv ++ [(k, [x])])%list
  end.

Record state := mk_state {
  st_levels : levels;
  visited : list string;
  queue : list (string * Z)
}.

(** The body shared by both loops:
    [if r not in visited: indirect_by_level[lvl].add(r); visited.add(r);
     queue.append((r, lvl))]. *)
Definition push (lvl : Z) (st : state) (r : string) : state :=
  if mem r (visited st) then st
  else mk_state (add_level lvl r (st_levels st)) (r :: visited st)
                (queue st ++ [(r, lvl)])%list.

(** One round of the initialisation loop: [visited.add(ref)], then the
    references of [details] (iterating an empty list is the same as the
    [if details.get('references'):] guard failing). *)
Definition init_step (st : state) (entry : string * detail) : state :=
  let '(ref, details) := entry in
  fold_left (push 2) (dreferences details)
    (mk_state (st_levels st) (ref :: visited st) (queue st)).

(** The initialisation loop over [direct_refs.items()]. *)
Definition init (direct_refs : list (string * detail)) : state :=
  fold_left init_step direct_refs (mk_state [] [] []).

(** [node_id] of the loop body, [""] standing for [None]
    (both are falsy in [if node_id:]). *)
Definition lookup_node (a : analyzer) (current_ref : string) : string :=
  if Dict.has_key current_ref (nodes a) then current_ref
  else match Dict.get current_ref (circular_to_node a) with
       | Some node_id => node_id
       | None => ""
       end.

(** One iteration of [while queue:] once [(current_ref, level)] is popped. *)
Definition body (a : analyzer) (max_depth : Z) (current_ref : string) (level : Z)
    (st : state) : state :=
  if Z.leb max_depth level then st
  else
    let node_id := lookup_node a current_ref in
    if String.eqb node_id "" then st
    else fold_left (push (level + 1)) (node_refs a node_id) st.

(** [while queue:] with a step budget; [None] means the budget ran out
    before the queue was empty. *)
Fixpoint bfs_loop (fuel : nat) (a : analyzer) (max_depth : Z) (st : state) : option state :=
  match queue st with
  | [] => Some st
  | (current_ref, level) :: rest =>
      match fuel with
      | O => None
      | S fuel' =>
          bfs_loop fuel' a max_depth
            (body a max_depth current_ref level (mk_state (st_levels st) (visited st) rest))
      end
  end.

(** All references listed by the nodes of the graph. *)
Definition all_refs (a : analyzer) : list string :=
  flat_map (fun '(_, n) => jreferences n) (nodes a).

(** The budget: the seeded queue plus one step per graph reference
    (each reference can be enqueued once); [bfs_terminates] below shows
    it always suffices. *)
Definition budget (a : analyzer) (st : state) : nat :=
  List.length (queue st) + List.length (all_refs a).

Definition find_indirect_references (a : analyzer) (direct_refs : list (string * detail))
    (max_depth : Z) : option levels :=
  let st0 := init direct_refs in
  match bfs_loop (budget a st0) a max_depth st0 with
  | Some st => Some (st_levels st)
  | None => None
  end.


(** References of the graph not yet visited. *)
Definition unvisited (U V : list string) : nat :=
  List.length (filter (fun u => negb (mem u V)) U).

(** Queue length plus unvisited graph references: it decreases at every
    iteration of the loop. *)
Definition measure (a : analyzer) (st : state) : nat :=
  List.length (queue st) + unvisited (all_refs a) (visited st).

(** All identifiers stored in the level sets. *)
Definition flat (lv : levels) : list string := List.concat (map snd lv).

(** [x] is in the set stored for level [L]. *)
Definition In_lv (L : Z) (x : string) (lv : levels) : Prop :=
  exists xs, In (L, xs) lv /\ In x xs.

(** The level sets hold each identifier once, only visited identifiers,
    and a direct key only at level 2. *)
Definition Inv (keys : list string) (st : state) : Prop :=
  NoDup (flat (st_levels st)) /\
  (forall x, In x (flat (st_levels st)) -> In x (visited st)) /\
  (forall L x, In_lv L x (st_levels st) -> In x keys -> L = 2%Z).

End Traversal.

(* ------------------------------------------------------------------ *)
(** ** [CircularDatabase.search] (src/circular_reference_extractor.py) *)

Module Database.

Record circular := mk_circular { title : string; circular_no : string }.

(** [search(reference)] over [self.circulars], in list order. *)
Definition search (circulars : list circular) (reference : string) : list circular :=
  let ref_normalized := norm_search reference in
  filter (fun circ =>
    let circ_no_normalized := norm_fuzzy (circular_no circ) in
    contains ref_normalized circ_no_normalized || contains circ_no_normalized ref_normalized)
    circulars.

End Database.

(* ------------------------------------------------------------------ *)
(** ** The five outcomes named by the spec (section 4.2)               *)

Inductive outcome := ExactNode | AliasNode | ExternallyReferenced | FuzzyMatch | Unresolved.

(** How an entry of [find_direct_references] reads in the spec's terms:
    ['in_graph'] is an exact hit when the node id is the candidate itself,
    an alias hit otherwise. *)
Definition outcome_of (ref : string) (d : Analyzer.detail) : outcome :=
  match Analyzer.dtype d with
  | Analyzer.InGraph node_id => if String.eqb node_id ref then ExactNode else AliasNode
  | Analyzer.ReferencedExternal _ => ExternallyReferenced
  | Analyzer.FuzzyMatchT _ => FuzzyMatch
  | Analyzer.External => Unresolved
  end.

(* ------------------------------------------------------------------ *)
(** ** Concrete graphs used by the scenarios                           *)

(** Scenario A: [X] cites [Y] and [Y] cites [X]. *)
Definition cycle_graph : Analyzer.analyzer :=
  Analyzer.load_graph
    [Analyzer.mk_jnode "X" (Some "X") ["Y"]; Analyzer.mk_jnode "Y" (Some "Y") ["X"]]
    [Analyzer.mk_jedge "X" "Y"; Analyzer.mk_jedge "Y" "X"].

(** Scenario B: one node whose circular number is written with spaces. *)
Definition spaced_graph : Analyzer.analyzer :=
  Analyzer.load_graph
    [Analyzer.mk_jnode "f.pdf" (Some "SEBI HO ABC 2024 5") []] [].

(** [A] cites [a] and [b]; [b] cites [B]. *)
Definition case_graph : Analyzer.analyzer :=
  Analyzer.load_graph
    [Analyzer.mk_jnode "A" (Some "A") ["a"; "b"]; Analyzer.mk_jnode "b" (Some "b") ["B"]]
    [Analyzer.mk_jedge "A" "a"; Analyzer.mk_jedge "A" "b"; Analyzer.mk_jedge "b" "B"].

(* ------------------------------------------------------------------ *)
(** ** [sorted] as the code uses it                                   *)

Module Sort.

(** Python's order on [str]: code points compared left to right, a
    proper prefix first. *)
Fixpoint str_ltb (s t : string) : bool :=
  match s, t with
  | EmptyString, EmptyString => false
  | EmptyString, String _ _ => true
  | String _ _, EmptyString => false
  | String a s', String b t' =>
      if Nat.ltb (nat_of_ascii a) (nat_of_ascii b) then true
      else if Nat.eqb (nat_of_ascii a) (nat_of_ascii b) then str_ltb s' t' else false
  end.

(** Python's sort is stable.  [insert_by before x l] puts [x] in front of
    the first [y] of the sorted [l] with [before x y]; since [x] came
    first in the input, it goes in front of the elements ranked equal. *)
Fixpoint insert_by {A} (before : A -> A -> bool) (x : A) (l : list A) : list A :=
  match l with
  | [] => [x]
  | y :: l' => if before x y then x :: l else y :: insert_by before x l'
  end.

Fixpoint sort_by {A} (before : A -> A -> bool) (l : list A) : list A :=
  match l with
  | [] => []
  | x :: l' => insert_by before x (sort_by before l')
  end.

(** [sorted(l)] on strings. *)
Definition sorted_str (l : list string) : list string :=
  sort_by (fun x y => negb (str_ltb y x)) l.

(** [sorted(l, key=key, reverse=True)]. *)
Definition sorted_desc {A} (key : A -> nat) (l : list A) : list A :=
  sort_by (fun x y => Nat.leb (key y) (key x)) l.

End Sort.

(* ------------------------------------------------------------------ *)
(** ** [CircularKnowledgeGraph.get_statistics] and its rankings        *)

Module KGStats.
Import KG.

(** [ref_counts] of [_get_most_referenced]: a [defaultdict(int)], its keys
    in order of first appearance. *)
Definition ref_counts (g : graph) : list (string * nat) :=
  fold_left (fun d e =>
    let t := target_reference e in
    Dict.set t (match Dict.get t d with Some c => c | None => 0 end + 1) d)
    (edges g) [].

(** [_get_most_referenced]: the ten targets with the most edges. *)
Definition get_most_referenced (g : graph) : list (string * nat) :=
  firstn 10 (Sort.sorted_desc snd (ref_counts g)).

(** [_get_most_outgoing_refs]: the ten nodes with the largest
    [reference_count], as [(circular_no, reference_count)]. *)
Definition get_most_outgoing_refs (g : graph) : list (string * nat) :=
  map (fun '(_, n) => (circular_no n, reference_count n))
    (firstn 10 (Sort.sorted_desc (fun p => reference_count (snd p)) (nodes g))).

(** [get_statistics]; ['avg_references_per_circular'] (a rounded float)
    and ['extraction_stats'] (returned as stored) are left out. *)
Record statistics := mk_statistics {
  total_nodes : nat;
  total_edges : nat;
  most_referenced_circulars : list (string * nat);
  circulars_with_most_outgoing_refs : list (string * nat)
}.

Definition get_statistics (g : graph) : statistics :=
  mk_statistics (List.length (nodes g)) (List.length (edges g))
    (get_most_referenced g) (get_most_outgoing_refs g).

(** The number of edges pointing at [t]. *)
Definition count_target (g : graph) (t : string) : nat :=
  List.length (filter (fun e => String.eqb (target_reference e) t) (edges g)).

End KGStats.

(* ------------------------------------------------------------------ *)
(** ** [CircularKnowledgeGraph._escape_xml]                            *)

Module Xml.

(** [s.replace(c, rep)] for a one-character [c]. *)
Fixpoint replace_char (c : ascii) (rep : string) (s : string) : string :=
  match s with
  | EmptyString => EmptyString
  | String x t =>
      if Ascii.eqb x c then (rep ++ replace_char c rep t)%string
      else String x (replace_char c rep t)
  end.

Definition dquote : ascii := ascii_of_nat 34.

(** [str(text)] with, in this order, [&] replaced by [&amp;], [<] by
    [&lt;], [>] by [&gt;], the double quote by [&quot;] and the single
    quote by [&apos;]. *)
Definition escape_xml (text : string) : string :=
  replace_char "'"%char "&apos;"
    (replace_char dquote "&quot;"
      (replace_char ">"%char "&gt;"
        (replace_char "<"%char "&lt;"
          (replace_char "&"%char "&amp;" text)))).

(** The five characters [_escape_xml] rewrites. *)
Definition xml_special (c : ascii) : bool :=
  Ascii.eqb c "&" || Ascii.eqb c "<" || Ascii.eqb c ">" || Ascii.eqb c dquote ||
  Ascii.eqb c "'".

(** What [_escape_xml] makes of one character. *)
Definition esc_char (c : ascii) : string :=
  if Ascii.eqb c "&" then "&amp;"
  else if Ascii.eqb c "<" then "&lt;"
  else if Ascii.eqb c ">" then "&gt;"
  else if Ascii.eqb c dquote then "&quot;"
  else if Ascii.eqb c "'" then "&apos;"
  else String c EmptyString.

End Xml.

(* ------------------------------------------------------------------ *)
(** ** [export_to_json] read back by [KnowledgeGraphAnalyzer]          *)

Module JsonExport.

(** [{'id': node_id, **node_data}] as the analyzer reads it: the id, the
    circular number and the references. *)
Definition export_node (node_id : string) (n : KG.node) : Analyzer.jnode :=
  Analyzer.mk_jnode node_id (Some (KG.circular_no n)) (KG.references n).

Definition export_nodes (g : KG.graph) : list Analyzer.jnode :=
  map (fun '(node_id, n) => export_node node_id n) (KG.nodes g).

Definition export_edges (g : KG.graph) : list Analyzer.jedge :=
  map (fun e => Analyzer.mk_jedge (KG.source e) (KG.target_reference e)) (KG.edges g).

(** [KnowledgeGraphAnalyzer(graph_file)] on the file [export_to_json] wrote. *)
Definition reload (g : KG.graph) : Analyzer.analyzer :=
  Analyzer.load_graph (export_nodes g) (export_edges g).

End JsonExport.

(** [KnowledgeGraphAnalyzer._get_node_references]: the targets of the
    edges whose source is [node_id], in edge order. *)
Definition get_node_references (a : Analyzer.analyzer) (node_id : string) : list string :=
  map Analyzer.jtarget_reference
    (filter (fun e => String.eqb (Analyzer.jsource e) node_id) (Analyzer.edges a)).

(* ------------------------------------------------------------------ *)
(** ** [main] of src/circular_reference_extractor.py                   *)

Module ExtractorMain.

(** The matching loop [for ref in sorted(references): matches = db.search(ref) ...];
    a matched entry [{'reference': ref, 'title', 'circular_no'}] is the
    pair of [ref] and the circular. *)
Definition match_references (db : list Database.circular) (references : list string)
    : list (string * Database.circular) * list string :=
  fold_left (fun '(matched, unmatched) ref =>
    match Database.search db ref with
    | [] => (matched, unmatched ++ [ref])%list
    | matches => (matched ++ map (fun m => (ref, m)) matches, unmatched)%list
    end) (Sort.sorted_str references) ([], []).

(** From the loaded database and the extracted references to the report:
    [None] where [main] returns early (empty database, or nothing left
    after the self-reference filter). *)
Definition run (db : list Database.circular) (current_circular : string)
    (all_references : list string)
    : option (list (string * Database.circular) * list string) :=
  match db with
  | [] => None
  | _ =>
    match filter_self_main current_circular all_references with
    | [] => None
    | references => Some (match_references db references)
    end
  end.

End ExtractorMain.

(* ------------------------------------------------------------------ *)
(** ** [main] and [process_circular] of src/circular_knowledge_graph.py *)

Module KGMain.

(** What [process_circular] gets from the extractor for one PDF: the
    circular number and references, or a failure (no text extracted, or
    an exception), in which case it returns [False]. *)
Inductive pdf_result :=
| Extracted (circular_no : string) (references : list string)
| Failed.

Record extraction_stats := mk_stats {
  total_pdfs : nat;
  successful_extractions : nat;
  failed_extractions : nat;
  total_references : nat
}.

(** One round of [for pdf_path in sorted(pdf_files)]: [process_circular]
    adds the circular under [pdf_path.name] on success, and the counters
    are updated. *)
Definition step (acc : KG.graph * extraction_stats) (pdf : string * pdf_result)
    : KG.graph * extraction_stats :=
  let '(g, st) := acc in
  let '(name, r) := pdf in
  match r with
  | Extracted c rs =>
      (KG.add_circular g name c rs,
       mk_stats (total_pdfs st) (S (successful_extractions st))
                (failed_extractions st) (total_references st))
  | Failed =>
      (g, mk_stats (total_pdfs st) (successful_extractions st)
                   (S (failed_extractions st)) (total_references st))
  end.

(** The PDFs of one directory, sorted by path, i.e. by file name. *)
Definition build (pdf_files : list (string * pdf_result)) : KG.graph * extraction_stats :=
  fold_left step
    (Sort.sort_by (fun x y => negb (Sort.str_ltb (fst y) (fst x))) pdf_files)
    (KG.empty, mk_stats (List.length pdf_files) 0 0 0).

End KGMain.

(* ------------------------------------------------------------------ *)
(** ** Shape of the traversal's level sets                             *)

Module TraversalShape.
Import Analyzer Traversal.

(** The references listed by the direct entries (the level-2 seeds). *)
Definition seeds (direct_refs : list (string * detail)) : list string :=
  flat_map (fun p => dreferences (snd p)) direct_refs.

(** Level keys lie between 2 and [max(2, max_depth)], each set is
    non-empty, a level above 2 has a level below it, a queued entry is in
    the set of its level, level 2 holds seeds and higher levels hold
    references listed by graph nodes. *)
Definition Shape (a : analyzer) (sd : list string) (d : Z) (st : state) : Prop :=
  (forall r l, In (r, l) (queue st) ->
     (2 <= l)%Z /\ (l = 2 \/ l <= d)%Z /\ In_lv l r (st_levels st)) /\
  (forall L xs, In (L, xs) (st_levels st) ->
     (2 <= L)%Z /\ (L = 2 \/ L <= d)%Z /\ xs <> [] /\
     (L <> 2%Z -> exists ys, In ((L - 1)%Z, ys) (st_levels st))) /\
  (forall L x, In_lv L x (st_levels st) ->
     (L = 2%Z -> In x sd) /\ (L <> 2%Z -> In x (all_refs a))).

End TraversalShape.

(* ================================================================== *)
(** * Lemmas and claims                                                *)

(* ------------------------------------------------------------------ *)
(** ** Strings                                                         *)

Lemma contains_nil (s : string) : contains "" s = true.
Proof. destruct s; reflexivity. Qed.

Lemma spec_normalize_shorter (s : string) :
  String.length (spec_normalize s) <= String.length (norm_fuzzy s).
Proof.
  unfold norm_fuzzy. induction s as [|c t IH]; simpl; [lia|].
  destruct (Ascii.eqb c " ") eqn:Hs; destruct (is_alnum c) eqn:Ha; simpl; try lia.
  apply Ascii.eqb_eq in Hs; subst c. discriminate.
Qed.


Lemma norm_fuzzy_spec_agree (s : string) :
  norm_fuzzy s = spec_normalize s <-> all_chars alnum_or_space s = true.
Proof.
  unfold norm_fuzzy. induction s as [|c t IH]; simpl; [tauto|].
  unfold alnum_or_space at 1.
  destruct (Ascii.eqb c " ") eqn:Hs.
  - apply Ascii.eqb_eq in Hs; subst c. simpl. exact IH.
  - destruct (is_alnum c) eqn:Ha; simpl.
    + split.
      * intros H. injection H as H. apply IH, H.
      * intros H. f_equal. apply IH, H.
    + split; [|discriminate].
      intros H. exfalso.
      assert (Hl := spec_normalize_shorter t). unfold norm_fuzzy in Hl.
      apply (f_equal String.length) in H. simpl in H. lia.
Qed.

(* ------------------------------------------------------------------ *)
(** ** Dicts                                                           *)

Lemma dict_get_set {V} (k k' : string) (v : V) (d : list (string * V)) :
  Dict.get k (Dict.set k' v d) = if String.eqb k k' then Some v else Dict.get k d.
Proof.
  induction d as [|[k0 v0] d IH]; simpl.
  - reflexivity.
  - destruct (String.eqb k' k0) eqn:E1.
    + apply String.eqb_eq in E1; subst k0. simpl.
      destruct (String.eqb k k'); reflexivity.
    + simpl. rewrite IH.
      destruct (String.eqb k k0) eqn:E2, (String.eqb k k') eqn:E3; try reflexivity.
      apply String.eqb_eq in E2, E3. subst. rewrite String.eqb_refl in E1. discriminate.
Qed.

Lemma dict_get_In {V} (k : string) (v : V) (d : list (string * V)) :
  Dict.get k d = Some v -> In (k, v) d.
Proof.
  induction d as [|[k0 v0] d IH]; simpl; [discriminate|].
  destruct (String.eqb k k0) eqn:E.
  - intros H. injection H as <-. apply String.eqb_eq in E; subst. left; reflexivity.
  - intros H. right. apply IH, H.
Qed.

Lemma circular_to_node_fold (k : string) (l : list (string * Analyzer.jnode))
    (d : list (string * string)) :
  Dict.get k (fold_left (fun d '(node_id, n) =>
      let circ_no := Analyzer.circ_of n in
      if String.eqb circ_no "" then d else Dict.set circ_no node_id d) l d) <> None
  <-> Dict.get k d <> None \/
      (k <> "" /\ exists id n, In (id, n) l /\ Analyzer.circ_of n = k).
Proof.
  revert d. induction l as [|[id n] l IH]; intros d; simpl.
  - split; [tauto|]. intros [H|[_ [id [n [[] _]]]]]. exact H.
  - rewrite IH. destruct (String.eqb (Analyzer.circ_of n) "") eqn:E.
    + apply String.eqb_eq in E. split.
      * intros [H|[Hk [id' [n' [Hin Hc]]]]]; [left; exact H|].
        right. split; [exact Hk|]. exists id', n'. split; [right; exact Hin|exact Hc].
      * intros [H|[Hk [id' [n' [[Heq|Hin] Hc]]]]]; [left; exact H| |].
        -- injection Heq as <- <-. congruence.
        -- right. split; [exact Hk|]. exists id', n'. split; assumption.
    + rewrite dict_get_set. apply String.eqb_neq in E.
      destruct (String.eqb k (Analyzer.circ_of n)) eqn:Ek.
      * apply String.eqb_eq in Ek. split.
        -- intros _. right. split; [congruence|]. exists id, n. split; [left; reflexivity|congruence].
        -- intros _. left. discriminate.
      * apply String.eqb_neq in Ek. split.
        -- intros [H|[Hk [id' [n' [Hin Hc]]]]]; [left; exact H|].
           right. split; [exact Hk|]. exists id', n'. split; [right; exact Hin|exact Hc].
        -- intros [H|[Hk [id' [n' [[Heq|Hin] Hc]]]]]; [left; exact H| |].
           ++ injection Heq as <- <-. congruence.
           ++ right. split; [exact Hk|]. exists id', n'. split; assumption.
Qed.

(* ------------------------------------------------------------------ *)
(** ** Resolver                                                        *)

Lemma classify_not_in_graph (a : Analyzer.analyzer) (ref : string) :
  Dict.get ref (Analyzer.circular_to_node a) = None ->
  Dict.has_key ref (Analyzer.nodes a) = false ->
  forall id, Analyzer.dtype (Analyzer.classify a ref) <> Analyzer.InGraph id.
Proof.
  intros Hc Hn id. unfold Analyzer.classify. rewrite Hn, Hc.
  destruct (Dict.get ref (Analyzer.reference_map a)); [discriminate|].
  destruct (Analyzer.fuzzy_match_reference a ref); discriminate.
Qed.

(** C3 (as the code has it): for a candidate that is not itself a node id,
    the resolver answers ['in_graph'] (the spec's AliasNode) exactly when the
    candidate is, verbatim, the non-empty circular number of a loaded node;
    normalisation plays no part in this lookup. *)
Theorem alias_lookup_is_verbatim (jnodes : list Analyzer.jnode)
    (jedges : list Analyzer.jedge) (ref : string) :
  let a := Analyzer.load_graph jnodes jedges in
  Dict.has_key ref (Analyzer.nodes a) = false ->
  (exists id, Analyzer.dtype (Analyzer.classify a ref) = Analyzer.InGraph id) <->
  (ref <> "" /\ exists id n, In (id, n) (Analyzer.nodes a) /\ Analyzer.circ_of n = ref).
Proof.
  intros a Hn.
  assert (Hc : Dict.get ref (Analyzer.circular_to_node a) <> None <->
               (@None string <> None \/
                (ref <> "" /\ exists id n, In (id, n) (Analyzer.nodes a) /\
                                          Analyzer.circ_of n = ref)))
    by exact (circular_to_node_fold ref (Analyzer.nodes a) []).
  destruct (Dict.get ref (Analyzer.circular_to_node a)) as [id|] eqn:E.
  - split.
    + intros _. destruct (proj1 Hc ltac:(discriminate)) as [H|H]; [congruence|exact H].
    + intros _. exists id. unfold Analyzer.classify. rewrite Hn, E. reflexivity.
  - split.
    + intros [id Hid]. exfalso. revert Hid. apply classify_not_in_graph; assumption.
    + intros H. exfalso. apply (proj2 Hc); [right; exact H|reflexivity].
Qed.

(** Witness of [alias_lookup_is_verbatim] on Scenario B's graph. *)
Lemma alias_lookup_is_verbatim_witness :
  Dict.has_key "SEBI HO ABC 2024 5" (Analyzer.nodes spaced_graph) = false /\
  ((exists id, Analyzer.dtype (Analyzer.classify spaced_graph "SEBI HO ABC 2024 5")
                 = Analyzer.InGraph id) <->
   ("SEBI HO ABC 2024 5" <> "" /\ exists id n, In (id, n) (Analyzer.nodes spaced_graph) /\
      Analyzer.circ_of n = "SEBI HO ABC 2024 5")).
Proof.
  split; [reflexivity|].
  exact (alias_lookup_is_verbatim
    [Analyzer.mk_jnode "f.pdf" (Some "SEBI HO ABC 2024 5") []] [] "SEBI HO ABC 2024 5"
    eq_refl).
Defined.

(** C3 counterexample: Scenario B.  The candidate ["SEBI/HO/ABC/2024/5"]
    has the same reference-normal form as the stored ["SEBI HO ABC 2024 5"],
    yet the resolver files it as ['external'] (the spec's Unresolved):
    the circular-number lookup is verbatim and the fuzzy step keeps the
    slashes. *)
Lemma alias_spacing_counterexample :
  spec_normalize "SEBI/HO/ABC/2024/5" = spec_normalize "SEBI HO ABC 2024 5" /\
  Analyzer.find_direct_references spaced_graph ["SEBI/HO/ABC/2024/5"] =
    [("SEBI/HO/ABC/2024/5", Analyzer.mk_detail Analyzer.External [])].
Proof. split; vm_compute; reflexivity. Qed.

(* ------------------------------------------------------------------ *)
(** ** Normalisation                                                   *)

(** C4 (as the code has it): the normalisation of the fuzzy matcher,
    [s.replace(' ', '').upper()], agrees with the reference definition
    (keep ASCII letters and digits, upper-case) exactly on the strings made
    of ASCII letters, digits and spaces; any other character is kept.  The
    database search applies the same after [strip()]. *)
Theorem normalization_in_code (s : string) :
  (norm_fuzzy s = spec_normalize s <-> all_chars alnum_or_space s = true) /\
  norm_search s = norm_fuzzy (strip s).
Proof. split; [apply norm_fuzzy_spec_agree | reflexivity]. Qed.

(** C4 counterexample: ["A/B"] and ["AB"] have the same reference-normal
    form but different normal forms in the fuzzy matcher and in the
    database search. *)
Lemma normalization_keeps_slash :
  spec_normalize "A/B" = spec_normalize "AB" /\
  norm_fuzzy "A/B" <> norm_fuzzy "AB" /\
  norm_search "A/B" <> norm_search "AB".
Proof.
  split; [vm_compute; reflexivity|].
  split; intros H; vm_compute in H; discriminate.
Qed.

(** C10: a node whose circular number is empty or absent is a fuzzy match
    for every candidate, and a candidate whose normal form is empty is a
    fuzzy match for every node; the same holds for the database search. *)
Theorem fuzzy_empty_identifier_matches_all :
  (forall (a : Analyzer.analyzer) (ref id : string) (n : Analyzer.jnode),
     In (id, n) (Analyzer.nodes a) ->
     ((Analyzer.jcircular_no n = Some "" \/ Analyzer.jcircular_no n = None) ->
        In id (Analyzer.fuzzy_match_reference a ref)) /\
     (norm_fuzzy ref = "" -> In id (Analyzer.fuzzy_match_reference a ref))) /\
  (forall (db : list Database.circular) (reference : string) (c : Database.circular),
     In c db ->
     (Database.circular_no c = "" -> In c (Database.search db reference)) /\
     (norm_search reference = "" -> In c (Database.search db reference))).
Proof.
  split.
  - intros a ref id n Hin. unfold Analyzer.fuzzy_match_reference.
    split; intros H; apply in_map_iff; exists (id, n); (split; [reflexivity|]);
      apply filter_In; (split; [exact Hin|]).
    + assert (Hc : Analyzer.circ_of n = "")
        by (unfold Analyzer.circ_of; destruct H as [-> | ->]; reflexivity).
      rewrite Hc. simpl. rewrite contains_nil, orb_true_r. reflexivity.
    + rewrite H, contains_nil. reflexivity.
  - intros db reference c Hin. unfold Database.search.
    split; intros H; apply filter_In; (split; [exact Hin|]).
    + rewrite H. simpl. rewrite contains_nil, orb_true_r. reflexivity.
    + rewrite H, contains_nil. reflexivity.
Qed.

(** Witness of [fuzzy_empty_identifier_matches_all]: a graph node and a
    database entry without circular number. *)
Lemma fuzzy_empty_identifier_matches_all_witness :
  In "u.pdf" (Analyzer.fuzzy_match_reference
      (Analyzer.load_graph [Analyzer.mk_jnode "u.pdf" None []] []) "SEBI/HO/X/1") /\
  In (Database.mk_circular "t" "")
     (Database.search [Database.mk_circular "t" ""] "SEBI/HO/X/1").
Proof.
  destruct fuzzy_empty_identifier_matches_all as [Ha Hd]. split.
  - refine (proj1 (Ha (Analyzer.load_graph [Analyzer.mk_jnode "u.pdf" None []] [])
              "SEBI/HO/X/1" "u.pdf" (Analyzer.mk_jnode "u.pdf" None []) _) _).
    + simpl. left. reflexivity.
    + right. reflexivity.
  - refine (proj1 (Hd [Database.mk_circular "t" ""] "SEBI/HO/X/1"
              (Database.mk_circular "t" "") _) _).
    + simpl. left. reflexivity.
    + reflexivity.
Defined.

(* ------------------------------------------------------------------ *)
(** ** Self-reference filtering                                        *)

(** C2 (as the code has it): the self-reference filter runs in the
    extractors, on raw strings, by containment against the shortened self
    identifier; [find_direct_references] itself drops nothing (see
    [resolver_one_entry_per_candidate]). *)
Theorem self_filter_by_containment (self_id : string) (refs : list string) (r : string) :
  (In r (filter_self_kg self_id refs) <->
     In r refs /\
     ~ (circ_short_kg self_id <> "" /\
        (contains (circ_short_kg self_id) r = true \/ contains r (circ_short_kg self_id) = true))) /\
  (In r (filter_self_main self_id refs) <->
     In r refs /\
     contains (circ_short_main self_id) r = false /\ contains r (circ_short_main self_id) = false).
Proof.
  unfold filter_self_kg, filter_self_main, is_self_kg, is_self_main.
  split; rewrite filter_In.
  - destruct (String.eqb (circ_short_kg self_id) "") eqn:E.
    + apply String.eqb_eq in E. rewrite E. simpl. split.
      * intros [H _]. split; [exact H|]. intros [Hne _]. apply Hne. reflexivity.
      * intros [H _]. split; [exact H | reflexivity].
    + apply String.eqb_neq in E. simpl.
      destruct (contains (circ_short_kg self_id) r), (contains r (circ_short_kg self_id));
        simpl; intuition congruence.
  - destruct (contains (circ_short_main self_id) r), (contains r (circ_short_main self_id));
      simpl; intuition congruence.
Qed.

(** C2 counterexample: with self identifier ["SEBI/HO/ABC/2024/5"], the
    candidate ["SEBI/HO/ABC/2024/50"] (a different normal form) is dropped
    and ["sebi/ho/abc/2024/5"] (the same normal form) is kept. *)
Lemma self_filter_counterexample :
  spec_normalize "SEBI/HO/ABC/2024/50" <> spec_normalize "SEBI/HO/ABC/2024/5" /\
  spec_normalize "sebi/ho/abc/2024/5" = spec_normalize "SEBI/HO/ABC/2024/5" /\
  filter_self_kg "SEBI/HO/ABC/2024/5" ["SEBI/HO/ABC/2024/50"; "sebi/ho/abc/2024/5"] =
    ["sebi/ho/abc/2024/5"] /\
  filter_self_main "SEBI/HO/ABC/2024/5" ["SEBI/HO/ABC/2024/50"; "sebi/ho/abc/2024/5"] =
    ["sebi/ho/abc/2024/5"].
Proof.
  split; [intros H; vm_compute in H; discriminate|].
  split; [vm_compute; reflexivity|]. split; vm_compute; reflexivity.
Qed.

(* ------------------------------------------------------------------ *)
(** ** One entry per candidate                                         *)

Lemma dict_set_new {V} (k : string) (v : V) (d : list (string * V)) :
  ~ In k (map fst d) -> Dict.set k v d = (d ++ [(k, v)])%list.
Proof.
  induction d as [|[k' v'] d IH]; simpl; [reflexivity|].
  intros H. destruct (String.eqb k k') eqn:E.
  - apply String.eqb_eq in E. exfalso. apply H. left. congruence.
  - rewrite IH; [reflexivity|]. intros H'. apply H. right. exact H'.
Qed.

Lemma find_direct_fold (a : Analyzer.analyzer) (cands : list string)
    (acc : list (string * Analyzer.detail)) :
  NoDup cands -> (forall c, In c cands -> ~ In c (map fst acc)) ->
  fold_left (fun d ref => Dict.set ref (Analyzer.classify a ref) d) cands acc =
  (acc ++ map (fun c => (c, Analyzer.classify a c)) cands)%list.
Proof.
  revert acc. induction cands as [|c cs IH]; intros acc Hnd Hfresh; simpl.
  - rewrite app_nil_r. reflexivity.
  - inversion Hnd as [|? ? Hc Hcs]; subst.
    rewrite dict_set_new by (apply Hfresh; left; reflexivity).
    rewrite IH; [rewrite <- app_assoc; reflexivity | exact Hcs|].
    intros c' Hin. rewrite map_app, in_app_iff. simpl. intros [H|[H|[]]].
    + apply (Hfresh c'); [right; exact Hin | exact H].
    + subst. contradiction.
Qed.

(** C8: every candidate handed to [find_direct_references] (a Python set,
    so without repetition) gets exactly one entry, the one [classify]
    computes, and the entry's type reads as one of the spec's five outcomes
    (['in_graph'] covering ExactNode and AliasNode). *)
Theorem resolver_one_entry_per_candidate (a : Analyzer.analyzer) (cands : list string) :
  NoDup cands ->
  map fst (Analyzer.find_direct_references a cands) = cands /\
  (forall c d, In (c, d) (Analyzer.find_direct_references a cands) ->
     d = Analyzer.classify a c /\
     In (outcome_of c d) [ExactNode; AliasNode; ExternallyReferenced; FuzzyMatch; Unresolved]).
Proof.
  intros Hnd. unfold Analyzer.find_direct_references.
  rewrite find_direct_fold by (assumption || (intros; simpl; tauto)).
  simpl. split.
  - rewrite map_map. simpl. apply map_id.
  - intros c d Hin. apply in_map_iff in Hin. destruct Hin as [c' [Heq _]].
    injection Heq as <- <-. split; [reflexivity|].
    destruct (outcome_of c' (Analyzer.classify a c')); simpl; tauto.
Qed.

(** Witness of [resolver_one_entry_per_candidate] on Scenario A. *)
Lemma resolver_one_entry_per_candidate_witness :
  map fst (Analyzer.find_direct_references cycle_graph ["Y"; "Z"]) = ["Y"; "Z"].
Proof.
  refine (proj1 (resolver_one_entry_per_candidate cycle_graph ["Y"; "Z"] _)).
  constructor; [simpl; intros [H|[]]; discriminate|].
  constructor; [simpl; tauto | constructor].
Defined.

(* ------------------------------------------------------------------ *)
(** ** Graph builder: nodes and edges                                  *)

Lemma edges_from_add (g : KG.graph) (f c : string) (rs : list string) (id : string) :
  KG.edges_from (KG.add_circular g f c rs) id =
  (KG.edges_from g id ++ (if String.eqb f id then rs else []))%list.
Proof.
  unfold KG.edges_from, KG.add_circular. simpl.
  rewrite filter_app, map_app. f_equal.
  induction rs as [|r rs IH]; simpl; [destruct (String.eqb f id); reflexivity|].
  destruct (String.eqb f id); simpl; rewrite IH; reflexivity.
Qed.

Lemma node_get_add (g : KG.graph) (f c : string) (rs : list string) (id : string) :
  Dict.get id (KG.nodes (KG.add_circular g f c rs)) =
  if String.eqb id f then Some (KG.mk_node f c rs (List.length rs))
  else Dict.get id (KG.nodes g).
Proof. unfold KG.add_circular. simpl. apply dict_get_set. Qed.


Lemma add_all_edges (calls : list (string * string * list string)) (id : string) :
  KG.edges_from (KG.add_all KG.empty calls) id = KG.refs_for id calls.
Proof.
  induction calls as [|[[f c] rs] calls IH] using rev_ind; [reflexivity|].
  unfold KG.add_all in *. rewrite fold_left_app. simpl.
  rewrite edges_from_add, IH. unfold KG.refs_for. rewrite flat_map_app. simpl.
  rewrite app_nil_r. reflexivity.
Qed.

Lemma refs_for_absent (id : string) (calls : list (string * string * list string)) :
  ~ In id (map KG.call_key calls) -> KG.refs_for id calls = [].
Proof.
  induction calls as [|[[f c] rs] calls IH]; simpl; [reflexivity|].
  intros H. destruct (String.eqb f id) eqn:E.
  - apply String.eqb_eq in E. exfalso. apply H. left. exact E.
  - apply IH. intros H'. apply H. right. exact H'.
Qed.

(** C6 (as the code has it): [add_circular] overwrites the node but only
    appends edges.  After a run of calls, the edges leaving [id] carry the
    references of every call made for [id], in order; the edges match the
    stored node's references one for one when no id is added twice. *)
Theorem add_circular_edges_accumulate (calls : list (string * string * list string)) :
  (forall id, KG.edges_from (KG.add_all KG.empty calls) id = KG.refs_for id calls) /\
  (NoDup (map KG.call_key calls) ->
   forall id n, Dict.get id (KG.nodes (KG.add_all KG.empty calls)) = Some n ->
   KG.edges_from (KG.add_all KG.empty calls) id = KG.references n).
Proof.
  split; [intros id; apply add_all_edges|].
  induction calls as [|[[f c] rs] calls IH] using rev_ind; [intros _ id n H; discriminate|].
  intros Hnd id n Hget. rewrite map_app in Hnd. simpl in Hnd.
  assert (Hnd' := NoDup_remove_1 _ [] _ Hnd). assert (Hf := NoDup_remove_2 _ [] _ Hnd).
  rewrite app_nil_r in Hnd', Hf.
  unfold KG.add_all in *. rewrite fold_left_app in Hget |- *. cbn [fold_left] in Hget |- *.
  rewrite node_get_add in Hget. rewrite edges_from_add.
  destruct (String.eqb id f) eqn:E.
  - apply String.eqb_eq in E. subst id. injection Hget as <-. cbn [KG.references].
    pose proof (add_all_edges calls f) as Ha. unfold KG.add_all in Ha.
    rewrite String.eqb_refl, Ha, refs_for_absent by exact Hf. reflexivity.
  - rewrite (IH Hnd' id n Hget).
    destruct (String.eqb f id) eqn:E'; [|apply app_nil_r].
    apply String.eqb_eq in E'. subst. rewrite String.eqb_refl in E. discriminate.
Qed.

(** Witness of [add_circular_edges_accumulate]: two distinct documents. *)
Lemma add_circular_edges_accumulate_witness :
  KG.edges_from (KG.add_all KG.empty [("a.pdf", "C1", ["R"; "S"]); ("b.pdf", "C2", ["R"])])
    "a.pdf" = ["R"; "S"].
Proof.
  refine (proj2 (add_circular_edges_accumulate
                   [("a.pdf", "C1", ["R"; "S"]); ("b.pdf", "C2", ["R"])]) _ "a.pdf"
            (KG.mk_node "a.pdf" "C1" ["R"; "S"] 2) eq_refl).
  constructor; [simpl; intros [H|[]]; discriminate|].
  constructor; [simpl; tauto | constructor].
Defined.

(** C6 counterexample: adding ["f.pdf"] twice with the reference ["R"]
    leaves one node listing ["R"] once and two edges [f.pdf -> R]. *)
Lemma readd_duplicates_edges :
  let g := KG.add_all KG.empty [("f.pdf", "C", ["R"]); ("f.pdf", "C", ["R"])] in
  Dict.get "f.pdf" (KG.nodes g) = Some (KG.mk_node "f.pdf" "C" ["R"] 1) /\
  KG.edges_from g "f.pdf" = ["R"; "R"].
Proof. split; vm_compute; reflexivity. Qed.

(* ------------------------------------------------------------------ *)
(** ** Traversal: termination                                          *)

Module TraversalFacts.
Import Analyzer Traversal.

Lemma mem_In (x : string) (l : list string) : mem x l = true <-> In x l.
Proof.
  unfold mem. rewrite existsb_exists. split.
  - intros [y [Hy Heq]]. apply String.eqb_eq in Heq. subst. exact Hy.
  - intros H. exists x. split; [exact H | apply String.eqb_refl].
Qed.

Lemma mem_false (x : string) (l : list string) : mem x l = false <-> ~ In x l.
Proof.
  rewrite <- mem_In. destruct (mem x l); split; congruence.
Qed.


Lemma unvisited_le (U V : list string) : unvisited U V <= List.length U.
Proof. unfold unvisited. apply filter_length_le. Qed.

Lemma mem_cons (u r : string) (V : list string) :
  mem u (r :: V) = String.eqb u r || mem u V.
Proof. reflexivity. Qed.

Lemma unvisited_cons_le (U V : list string) (r : string) :
  unvisited U (r :: V) <= unvisited U V.
Proof.
  unfold unvisited. induction U as [|u U IH]; cbn [filter]; [lia|].
  rewrite mem_cons. destruct (String.eqb u r), (mem u V); cbn [negb orb List.length]; lia.
Qed.

Lemma unvisited_cons_lt (U V : list string) (r : string) :
  In r U -> ~ In r V -> unvisited U (r :: V) < unvisited U V.
Proof.
  unfold unvisited. induction U as [|u U IH]; cbn [filter In]; [tauto|].
  intros [->|Hin] Hv.
  - assert (Hm : mem r V = false) by (apply mem_false; exact Hv).
    rewrite mem_cons, String.eqb_refl, Hm. cbn [negb orb List.length].
    assert (H := unvisited_cons_le U V r). unfold unvisited in H. lia.
  - specialize (IH Hin Hv).
    rewrite mem_cons. destruct (String.eqb u r), (mem u V); cbn [negb orb List.length]; lia.
Qed.


Lemma push_measure (a : analyzer) (l : Z) (st : state) (r : string) :
  In r (all_refs a) -> measure a (push l st r) <= measure a st.
Proof.
  intros Hr. unfold push, measure.
  destruct (mem r (visited st)) eqn:Hm; [lia|].
  apply mem_false in Hm. simpl. rewrite length_app. simpl.
  assert (H := unvisited_cons_lt (all_refs a) (visited st) r Hr Hm). lia.
Qed.

Lemma fold_push_measure (a : analyzer) (l : Z) (rs : list string) (st : state) :
  (forall r, In r rs -> In r (all_refs a)) ->
  measure a (fold_left (push l) rs st) <= measure a st.
Proof.
  revert st. induction rs as [|r rs IH]; intros st Hrs; simpl; [lia|].
  etransitivity; [apply IH|].
  - intros r' Hr'. apply Hrs. right. exact Hr'.
  - apply push_measure. apply Hrs. left. reflexivity.
Qed.

Lemma node_refs_in_graph (a : analyzer) (id r : string) :
  In r (node_refs a id) -> In r (all_refs a).
Proof.
  unfold node_refs. destruct (Dict.get id (nodes a)) as [n|] eqn:E; [|intros []].
  intros Hr. apply dict_get_In in E. unfold all_refs. apply in_flat_map.
  exists (id, n). split; assumption.
Qed.

Lemma body_measure (a : analyzer) (d : Z) (cur : string) (lvl : Z) (st : state) :
  measure a (body a d cur lvl st) <= measure a st.
Proof.
  unfold body. destruct (Z.leb d lvl); [lia|].
  destruct (String.eqb (lookup_node a cur) ""); [lia|].
  apply fold_push_measure. intros r. apply node_refs_in_graph.
Qed.

Lemma bfs_loop_finishes (a : analyzer) (d : Z) (fuel : nat) (st : state) :
  measure a st <= fuel ->
  exists st', bfs_loop fuel a d st = Some st' /\ queue st' = [].
Proof.
  revert st. induction fuel as [|fuel IH]; intros [lv vis q] Hm;
    destruct q as [|[cur lvl] rest].
  - exists (mk_state lv vis []). split; reflexivity.
  - unfold measure in Hm. simpl in Hm. lia.
  - exists (mk_state lv vis []). split; reflexivity.
  - simpl. apply IH.
    assert (H := body_measure a d cur lvl (mk_state lv vis rest)).
    unfold measure in *. simpl in *. lia.
Qed.

Lemma budget_enough (a : analyzer) (st : state) : measure a st <= budget a st.
Proof.
  unfold measure, budget. assert (H := unvisited_le (all_refs a) (visited st)). lia.
Qed.

End TraversalFacts.

(* ------------------------------------------------------------------ *)
(** ** Traversal: the level sets                                       *)

Module LevelFacts.
Import Analyzer Traversal TraversalFacts.
Local Open Scope list_scope.



Lemma flat_app (l1 l2 : levels) : flat (l1 ++ l2) = (flat l1 ++ flat l2)%list.
Proof. unfold flat. rewrite map_app, concat_app. reflexivity. Qed.

Lemma lget_split (k : Z) (lv : levels) (s : list string) :
  lget k lv = Some s ->
  exists pre post, lv = (pre ++ (k, s) :: post)%list /\
    forall s', lset k s' lv = (pre ++ (k, s') :: post)%list.
Proof.
  induction lv as [|[k' s0] lv IH]; simpl; [discriminate|].
  destruct (Z.eqb k k') eqn:E.
  - intros H. injection H as <-. apply Z.eqb_eq in E. subst k'.
    exists [], lv. split; [reflexivity|]. intros s'. cbn [lset app]. try rewrite Z.eqb_refl. reflexivity.
  - intros H. destruct (IH H) as [pre [post [Hlv Hset]]].
    exists ((k', s0) :: pre), post. split; [rewrite Hlv; reflexivity|].
    intros s'. cbn [lset app]. try rewrite E. rewrite Hset. reflexivity.
Qed.

Lemma in_flat (lv : levels) (L : Z) (xs : list string) (x : string) :
  In (L, xs) lv -> In x xs -> In x (flat lv).
Proof.
  intros H1 H2. unfold flat. apply in_concat. exists xs. split; [|exact H2].
  apply in_map_iff. exists (L, xs). split; [reflexivity|exact H1].
Qed.

Lemma add_level_flat (k : Z) (x : string) (lv : levels) :
  ~ In x (flat lv) -> Permutation (flat (add_level k x lv)) (x :: flat lv).
Proof.
  intros Hx. unfold add_level. destruct (lget k lv) as [s|] eqn:E.
  - destruct (lget_split k lv s E) as [pre [post [Hlv Hset]]].
    rewrite Hset. unfold set_add.
    assert (Hm : mem x s = false).
    { apply mem_false. intros Hs. apply Hx. apply (in_flat lv k s); [|exact Hs].
      rewrite Hlv. apply in_or_app. right. left. reflexivity. }
    rewrite Hm, Hlv, !flat_app. unfold flat. simpl. fold (flat post).
    rewrite <- !app_assoc. simpl. rewrite !app_assoc. apply Permutation_sym, Permutation_middle.
  - rewrite flat_app. change (flat [(k, [x])]) with [x].
    apply Permutation_sym, Permutation_cons_append.
Qed.

Lemma add_level_In (k : Z) (x : string) (lv : levels) (L : Z) (y : string) :
  In_lv L y (add_level k x lv) -> In_lv L y lv \/ (L = k /\ y = x).
Proof.
  intros [ys [Hin Hy]]. unfold add_level in Hin. destruct (lget k lv) as [s|] eqn:E.
  - destruct (lget_split k lv s E) as [pre [post [Hlv Hset]]].
    rewrite Hset in Hin. apply in_app_or in Hin. destruct Hin as [Hin|[Heq|Hin]].
    + left. exists ys. split; [rewrite Hlv; apply in_or_app; left; exact Hin | exact Hy].
    + injection Heq as <- <-. unfold set_add in Hy. destruct (mem x s).
      * left. exists s. split; [rewrite Hlv; apply in_or_app; right; left; reflexivity|exact Hy].
      * apply in_app_or in Hy. destruct Hy as [Hy|[<-|[]]].
        -- left. exists s. split; [rewrite Hlv; apply in_or_app; right; left; reflexivity|exact Hy].
        -- right. split; reflexivity.
    + left. exists ys. split; [rewrite Hlv; apply in_or_app; right; right; exact Hin | exact Hy].
  - apply in_app_or in Hin. destruct Hin as [Hin|[Heq|[]]].
    + left. exists ys. split; assumption.
    + injection Heq as <- <-. destruct Hy as [<-|[]]. right. split; reflexivity.
Qed.

Lemma add_level_keys (k : Z) (x : string) (lv : levels) (L : Z) (ys : list string) :
  In (L, ys) (add_level k x lv) -> (exists zs, In (L, zs) lv) \/ L = k.
Proof.
  unfold add_level. destruct (lget k lv) as [s|] eqn:E.
  - destruct (lget_split k lv s E) as [pre [post [Hlv Hset]]].
    rewrite Hset. intros Hin. apply in_app_or in Hin. destruct Hin as [Hin|[Heq|Hin]].
    + left. exists ys. rewrite Hlv. apply in_or_app. left. exact Hin.
    + right. injection Heq as <- _. reflexivity.
    + left. exists ys. rewrite Hlv. apply in_or_app. right. right. exact Hin.
  - intros Hin. apply in_app_or in Hin. destruct Hin as [Hin|[Heq|[]]].
    + left. exists ys. exact Hin.
    + right. injection Heq as <- _. reflexivity.
Qed.

Lemma nodup_app_disjoint (l1 l2 : list string) (x : string) :
  NoDup (l1 ++ l2) -> In x l1 -> In x l2 -> False.
Proof.
  induction l1 as [|a l1 IH]; simpl; [tauto|].
  intros Hnd [->|H1] H2; inversion Hnd as [|? ? Ha Hnd']; subst.
  - apply Ha. apply in_or_app. right. exact H2.
  - exact (IH Hnd' H1 H2).
Qed.

Lemma nodup_flat_unique (lv : levels) (L1 L2 : Z) (x : string) :
  NoDup (flat lv) -> In_lv L1 x lv -> In_lv L2 x lv -> L1 = L2.
Proof.
  intros Hnd [xs1 [H1 Hx1]] [xs2 [H2 Hx2]]. revert Hnd H1 H2.
  induction lv as [|[k s] lv IH]; simpl; [tauto|].
  unfold flat. simpl. fold (flat lv). intros Hnd H1 H2.
  destruct H1 as [E1|H1], H2 as [E2|H2].
  - injection E1 as -> ->. injection E2 as -> ->. reflexivity.
  - injection E1 as -> ->. exfalso.
    apply (nodup_app_disjoint _ _ x Hnd Hx1). apply (in_flat lv L2 xs2); assumption.
  - injection E2 as -> ->. exfalso.
    apply (nodup_app_disjoint _ _ x Hnd Hx2). apply (in_flat lv L1 xs1); assumption.
  - apply IH; [|exact H1|exact H2]. apply (NoDup_app_remove_l _ _ Hnd).
Qed.

End LevelFacts.

(* ------------------------------------------------------------------ *)
(** ** Traversal: invariants                                           *)

Module TraversalInv.
Import Analyzer Traversal TraversalFacts LevelFacts.
Local Open Scope list_scope.


Lemma push_visited (l : Z) (st : state) (r y : string) :
  In y (visited st) -> In y (visited (push l st r)).
Proof. unfold push. destruct (mem r (visited st)); simpl; auto. Qed.

Lemma fold_push_visited (l : Z) (rs : list string) (st : state) (y : string) :
  In y (visited st) -> In y (visited (fold_left (push l) rs st)).
Proof.
  revert st. induction rs as [|r rs IH]; intros st H; simpl; [exact H|].
  apply IH, push_visited, H.
Qed.

Lemma push_inv (keys : list string) (l : Z) (st : state) (r : string) :
  Inv keys st -> (l = 2%Z \/ forall k, In k keys -> In k (visited st)) ->
  Inv keys (push l st r).
Proof.
  intros [H1 [H2 H3]] Hl. unfold push.
  destruct (mem r (visited st)) eqn:Hm; [split; auto|].
  apply mem_false in Hm. simpl.
  assert (Hr : ~ In r (flat (st_levels st))) by (intros H; apply Hm, H2, H).
  pose proof (add_level_flat l r (st_levels st) Hr) as P.
  split; [|split].
  - apply (Permutation_NoDup (Permutation_sym P)). constructor; assumption.
  - intros x Hx. apply (Permutation_in _ P) in Hx.
    destruct Hx as [<-|Hx]; [left; reflexivity | right; apply H2, Hx].
  - intros L x Hin Hk. apply add_level_In in Hin.
    destruct Hin as [Hin|[-> ->]]; [apply (H3 L x Hin Hk)|].
    destruct Hl as [->|Hl]; [reflexivity|]. exfalso. apply Hm, Hl, Hk.
Qed.

Lemma fold_push_inv (keys : list string) (l : Z) (rs : list string) (st : state) :
  Inv keys st -> (l = 2%Z \/ forall k, In k keys -> In k (visited st)) ->
  Inv keys (fold_left (push l) rs st).
Proof.
  revert st. induction rs as [|r rs IH]; intros st Hi Hl; simpl; [exact Hi|].
  apply IH; [apply push_inv; assumption|].
  destruct Hl as [Hl|Hl]; [left; exact Hl|]. right. intros k Hk. apply push_visited, Hl, Hk.
Qed.

Lemma init_step_inv (keys : list string) (st : state) (e : string * detail) :
  Inv keys st -> Inv keys (init_step st e).
Proof.
  destruct e as [ref details]. intros [H1 [H2 H3]]. unfold init_step.
  apply fold_push_inv; [|left; reflexivity].
  split; [exact H1|]. split; [|exact H3]. intros x Hx. right. apply H2, Hx.
Qed.

Lemma init_step_visited (st : state) (e : string * detail) (y : string) :
  In y (visited st) \/ y = fst e -> In y (visited (init_step st e)).
Proof.
  destruct e as [ref details]. unfold init_step. simpl. intros H.
  apply fold_push_visited. simpl. destruct H as [H|H]; [right; exact H|left; congruence].
Qed.

Lemma init_fold_inv (keys : list string) (ds : list (string * detail)) (st : state) :
  Inv keys st -> Inv keys (fold_left init_step ds st).
Proof.
  revert st. induction ds as [|e ds IH]; intros st H; simpl; [exact H|].
  apply IH, init_step_inv, H.
Qed.

Lemma init_fold_visited (ds : list (string * detail)) (st : state) (y : string) :
  In y (visited st) \/ In y (map fst ds) -> In y (visited (fold_left init_step ds st)).
Proof.
  revert st. induction ds as [|e ds IH]; intros st H; simpl in *.
  - destruct H as [H|[]]. exact H.
  - apply IH. destruct H as [H|[H|H]].
    + left. apply init_step_visited. left. exact H.
    + left. apply init_step_visited. right. congruence.
    + right. exact H.
Qed.

Lemma init_inv (direct_refs : list (string * detail)) :
  Inv (map fst direct_refs) (init direct_refs) /\
  (forall k, In k (map fst direct_refs) -> In k (visited (init direct_refs))).
Proof.
  split.
  - apply init_fold_inv. split; [constructor|]. split; [intros x []|].
    intros L x [xs [[] _]].
  - intros k Hk. apply init_fold_visited. right. exact Hk.
Qed.

Lemma body_inv (keys : list string) (a : analyzer) (d : Z) (cur : string) (lvl : Z)
    (st : state) :
  Inv keys st -> (forall k, In k keys -> In k (visited st)) ->
  Inv keys (body a d cur lvl st) /\
  (forall k, In k keys -> In k (visited (body a d cur lvl st))).
Proof.
  intros Hi Hk. unfold body.
  destruct (Z.leb d lvl); [split; assumption|].
  destruct (String.eqb (lookup_node a cur) ""); [split; assumption|].
  split; [apply fold_push_inv; [exact Hi|right; exact Hk]|].
  intros k Hin. apply fold_push_visited, Hk, Hin.
Qed.

Lemma bfs_inv (keys : list string) (a : analyzer) (d : Z) (fuel : nat) (st st' : state) :
  bfs_loop fuel a d st = Some st' ->
  Inv keys st -> (forall k, In k keys -> In k (visited st)) -> Inv keys st'.
Proof.
  revert st. induction fuel as [|fuel IH]; intros [lv vis q] Hrun Hi Hk;
    destruct q as [|[cur lvl] rest]; simpl in Hrun.
  - injection Hrun as <-. exact Hi.
  - discriminate.
  - injection Hrun as <-. exact Hi.
  - destruct (body_inv keys a d cur lvl (mk_state lv vis rest)) as [Hi' Hk'];
      [exact Hi|exact Hk|].
    exact (IH _ Hrun Hi' Hk').
Qed.

(* Shallow depths: the loop only pops. *)

Lemma init_fold_queue (ds : list (string * detail)) (st : state) :
  (forall r l, In (r, l) (queue st) -> l = 2%Z) ->
  forall r l, In (r, l) (queue (fold_left init_step ds st)) -> l = 2%Z.
Proof.
  assert (Hp : forall rs st, (forall r l, In (r, l) (queue st) -> l = 2%Z) ->
            forall r l, In (r, l) (queue (fold_left (push 2) rs st)) -> l = 2%Z).
  { induction rs as [|x rs IH]; intros st' H; simpl; [exact H|]. apply IH.
    intros r l. unfold push. destruct (mem x (visited st')); [apply H|].
    simpl. intros Hin. apply in_app_or in Hin. destruct Hin as [Hin|[E|[]]];
      [exact (H r l Hin)|congruence]. }
  revert st. induction ds as [|[ref details] ds IH]; intros st H; simpl; [exact H|].
  apply IH. unfold init_step. apply Hp. exact H.
Qed.

Lemma init_fold_keys (ds : list (string * detail)) (st : state) :
  (forall L xs, In (L, xs) (st_levels st) -> L = 2%Z) ->
  forall L xs, In (L, xs) (st_levels (fold_left init_step ds st)) -> L = 2%Z.
Proof.
  assert (Hp : forall rs st, (forall L xs, In (L, xs) (st_levels st) -> L = 2%Z) ->
            forall L xs, In (L, xs) (st_levels (fold_left (push 2) rs st)) -> L = 2%Z).
  { induction rs as [|x rs IH]; intros st' H; simpl; [exact H|]. apply IH.
    intros L xs. unfold push. destruct (mem x (visited st')); [apply H|].
    simpl. intros Hin. apply add_level_keys in Hin.
    destruct Hin as [[zs Hz]|E]; [exact (H L zs Hz)|exact E]. }
  revert st. induction ds as [|[ref details] ds IH]; intros st H; simpl; [exact H|].
  apply IH. unfold init_step. apply Hp. exact H.
Qed.

Lemma shallow_loop (a : analyzer) (d : Z) (fuel : nat) (st : state) :
  (forall r l, In (r, l) (queue st) -> (d <= l)%Z) -> List.length (queue st) <= fuel ->
  bfs_loop fuel a d st = Some (mk_state (st_levels st) (visited st) []).
Proof.
  revert st. induction fuel as [|fuel IH]; intros [lv vis q] Hq Hlen;
    destruct q as [|[cur lvl] rest]; simpl in *; try reflexivity; [lia|].
  unfold body. replace (Z.leb d lvl) with true
    by (symmetry; apply Z.leb_le, (Hq cur lvl); left; reflexivity).
  apply (IH (mk_state lv vis rest)); simpl; [|lia].
  intros r l Hin. apply (Hq r l). right. exact Hin.
Qed.

Lemma shallow_result (a : analyzer) (direct_refs : list (string * detail)) (d : Z) :
  (d <= 2)%Z ->
  find_indirect_references a direct_refs d = Some (st_levels (init direct_refs)).
Proof.
  intros Hd. unfold find_indirect_references.
  rewrite shallow_loop; [reflexivity| |unfold budget; lia].
  intros r l Hin. unfold init in Hin.
  rewrite (init_fold_queue direct_refs (mk_state [] [] []) ltac:(intros ? ? []) r l Hin).
  exact Hd.
Qed.

End TraversalInv.

(* ------------------------------------------------------------------ *)
(** ** Traversal claims                                                *)

(** C1: Scenario A with [max_depth = 1] reports ["X"] at level 2,
    deeper than [max_depth]: the seeding loop adds level 2 without the
    [level >= max_depth] test the BFS loop makes before adding
    [level + 1]. *)
Lemma depth_one_not_empty :
  Traversal.find_indirect_references cycle_graph
    (Analyzer.find_direct_references cycle_graph ["Y"]) 1 = Some [(2%Z, ["X"])].
Proof. vm_compute. reflexivity. Qed.

(** C9 (as the code has it): [find_indirect_references] validates no
    depth; for [max_depth < 1] it raises no error and returns a level
    map, not a failure. *)
Theorem depth_below_one_not_rejected (a : Analyzer.analyzer)
    (direct_refs : list (string * Analyzer.detail)) (max_depth : Z) :
  (max_depth < 1)%Z ->
  exists lv, Traversal.find_indirect_references a direct_refs max_depth = Some lv.
Proof.
  intros H. exists (Traversal.st_levels (Traversal.init direct_refs)).
  apply TraversalInv.shallow_result. lia.
Qed.

(** Witness of [depth_below_one_not_rejected]: Scenario A at depth 0. *)
Lemma depth_below_one_not_rejected_witness :
  (0 < 1)%Z /\
  (exists lv, Traversal.find_indirect_references cycle_graph
    (Analyzer.find_direct_references cycle_graph ["Y"]) 0 = Some lv).
Proof.
  split; [lia|].
  apply depth_below_one_not_rejected. lia.
Defined.

(** C9 counterexample: depths 0 and -3 give a result, not an error
    result. *)
Lemma depth_zero_returns_result :
  Traversal.find_indirect_references cycle_graph
    (Analyzer.find_direct_references cycle_graph ["Y"]) 0 = Some [(2%Z, ["X"])] /\
  Traversal.find_indirect_references cycle_graph
    (Analyzer.find_direct_references cycle_graph ["Y"]) (-3) = Some [(2%Z, ["X"])].
Proof. split; vm_compute; reflexivity. Qed.

(** C5 (as the code has it): the visited set holds raw strings.  No raw
    identifier is in the sets of two different levels, and a raw
    identifier equal to a direct key is found at no level above 2. *)
Theorem traversal_levels_disjoint_raw (a : Analyzer.analyzer)
    (direct_refs : list (string * Analyzer.detail)) (max_depth : Z)
    (lv : Traversal.levels) :
  Traversal.find_indirect_references a direct_refs max_depth = Some lv ->
  (forall L1 L2 x, Traversal.In_lv L1 x lv -> Traversal.In_lv L2 x lv -> L1 = L2) /\
  (forall L x, Traversal.In_lv L x lv -> In x (map fst direct_refs) -> L = 2%Z).
Proof.
  unfold Traversal.find_indirect_references.
  destruct (Traversal.bfs_loop _ a max_depth _) as [st|] eqn:E; [|discriminate].
  intros H. injection H as <-.
  destruct (TraversalInv.init_inv direct_refs) as [Hi Hk].
  destruct (TraversalInv.bfs_inv _ a max_depth _ _ _ E Hi Hk) as [H1 [_ H3]].
  split; [|exact H3].
  intros L1 L2 x. apply LevelFacts.nodup_flat_unique. exact H1.
Qed.

(** Witness of [traversal_levels_disjoint_raw] on the graph [A -> a, b],
    [b -> B]: ["a"] is only at level 2. *)
Lemma traversal_levels_disjoint_raw_witness :
  Traversal.find_indirect_references case_graph
    (Analyzer.find_direct_references case_graph ["A"]) 5 =
    Some [(2%Z, ["a"; "b"]); (3%Z, ["B"])] /\ (2 = 2)%Z.
Proof.
  assert (E : Traversal.find_indirect_references case_graph
                (Analyzer.find_direct_references case_graph ["A"]) 5 =
              Some [(2%Z, ["a"; "b"]); (3%Z, ["B"])]) by (vm_compute; reflexivity).
  split; [exact E|].
  apply (proj1 (traversal_levels_disjoint_raw case_graph _ 5 _ E) 2%Z 2%Z "a");
    exists ["a"; "b"]; split; simpl; auto.
Defined.

(** C5 counterexample: from ["A"] in [A -> a, b], [b -> B], the result has
    ["a"] (the seed's normal form) at level 2, and ["b"] and ["B"] (one
    normal form) at levels 2 and 3. *)
Lemma traversal_normal_forms_repeat :
  Traversal.find_indirect_references case_graph
    (Analyzer.find_direct_references case_graph ["A"]) 5 =
    Some [(2%Z, ["a"; "b"]); (3%Z, ["B"])] /\
  spec_normalize "a" = spec_normalize "A" /\
  spec_normalize "b" = spec_normalize "B".
Proof. split; [vm_compute; reflexivity|split; reflexivity]. Qed.

(** A direct key listed by an earlier direct entry is reported at level 2. *)
Lemma direct_key_at_level_two :
  Traversal.find_indirect_references case_graph
    [("A", Analyzer.mk_detail (Analyzer.InGraph "A") ["b"]);
     ("b", Analyzer.mk_detail (Analyzer.InGraph "b") ["B"])] 5 =
    Some [(2%Z, ["b"; "B"])].
Proof. vm_compute. reflexivity. Qed.

(** C7: the traversal terminates on every graph, cycles included (the
    loop reaches an empty queue within [budget] iterations), and in
    Scenario A ([X -> Y], [Y -> X], direct reference [Y], depth 5) the
    result is ["X"] once, at level 2, the first level seeded from [Y]'s
    outgoing references; [Y] appears at no level. *)
Theorem traversal_terminates :
  (forall (a : Analyzer.analyzer) (direct_refs : list (string * Analyzer.detail))
          (max_depth : Z),
     exists lv, Traversal.find_indirect_references a direct_refs max_depth = Some lv) /\
  Traversal.find_indirect_references cycle_graph
    (Analyzer.find_direct_references cycle_graph ["Y"]) 5 = Some [(2%Z, ["X"])].
Proof.
  split; [|vm_compute; reflexivity].
  intros a direct_refs max_depth. unfold Traversal.find_indirect_references.
  destruct (TraversalFacts.bfs_loop_finishes a max_depth
              (Traversal.budget a (Traversal.init direct_refs)) (Traversal.init direct_refs)
              (TraversalFacts.budget_enough a _)) as [st [-> _]].
  eexists. reflexivity.
Qed.

(* ------------------------------------------------------------------ *)
(** ** Sorting and ranking                                             *)

Module SortFacts.
Import Sort.

Lemma insert_by_perm {A} (b : A -> A -> bool) (x : A) (l : list A) :
  Permutation (insert_by b x l) (x :: l).
Proof.
  induction l as [|y l IH]; simpl; [reflexivity|].
  destruct (b x y); [reflexivity|].
  etransitivity; [apply perm_skip, IH|apply perm_swap].
Qed.

Lemma sort_by_perm {A} (b : A -> A -> bool) (l : list A) :
  Permutation (sort_by b l) l.
Proof.
  induction l as [|x l IH]; simpl; [reflexivity|].
  etransitivity; [apply insert_by_perm|apply perm_skip, IH].
Qed.

Lemma insert_desc_sorted {A} (key : A -> nat) (x : A) (l : list A) :
  StronglySorted (fun u v => key v <= key u) l ->
  StronglySorted (fun u v => key v <= key u)
    (insert_by (fun u v => Nat.leb (key v) (key u)) x l).
Proof.
  induction l as [|y l IH]; intros H; simpl.
  - repeat constructor.
  - apply StronglySorted_inv in H. destruct H as [Hl Hy].
    destruct (Nat.leb (key y) (key x)) eqn:E.
    + apply Nat.leb_le in E. constructor; [constructor; assumption|].
      constructor; [exact E|]. eapply Forall_impl; [|exact Hy]. simpl. intros z Hz. lia.
    + apply Nat.leb_gt in E. constructor; [apply IH, Hl|].
      apply Forall_forall. intros z Hz.
      apply (Permutation_in _ (insert_by_perm _ x l)) in Hz. destruct Hz as [<-|Hz]; [lia|].
      rewrite Forall_forall in Hy. apply Hy, Hz.
Qed.

Lemma sorted_desc_sorted {A} (key : A -> nat) (l : list A) :
  StronglySorted (fun u v => key v <= key u) (sorted_desc key l).
Proof.
  unfold sorted_desc. induction l as [|x l IH]; simpl; [constructor|].
  apply insert_desc_sorted, IH.
Qed.

Lemma strongly_sorted_app {A} (R : A -> A -> Prop) (l1 l2 : list A) :
  StronglySorted R (l1 ++ l2) ->
  StronglySorted R l1 /\ forall x y, In x l1 -> In y l2 -> R x y.
Proof.
  induction l1 as [|a l1 IH]; simpl; intros H.
  - split; [constructor|]. intros x y [].
  - apply StronglySorted_inv in H. destruct H as [H Ha].
    destruct (IH H) as [H1 H2]. rewrite Forall_forall in Ha. split.
    + constructor; [exact H1|]. apply Forall_forall. intros z Hz.
      apply Ha, in_or_app. left. exact Hz.
    + intros x y [<-|Hx] Hy; [apply Ha, in_or_app; right; exact Hy|].
      apply H2; assumption.
Qed.

Lemma in_firstn {A} (k : nat) (l : list A) (x : A) : In x (firstn k l) -> In x l.
Proof. intros H. rewrite <- (firstn_skipn k l). apply in_or_app. left. exact H. Qed.

(** The first [k] of [sorted(l, key=key, reverse=True)]: at most [k]
    elements, in non-increasing [key] order, all from [l], and an element
    of [l] left out ranks no higher than any element kept, which are then
    exactly [k]. *)
Lemma top_k {A} (key : A -> nat) (k : nat) (l : list A) :
  let r := firstn k (sorted_desc key l) in
  List.length r <= k /\ StronglySorted (fun u v => key v <= key u) r /\
  (forall x, In x r -> In x l) /\
  (forall x, In x l -> In x r \/ (List.length r = k /\ forall y, In y r -> key x <= key y)).
Proof.
  intros r.
  assert (Hs := sorted_desc_sorted key l).
  assert (Hp : Permutation (sorted_desc key l) l) by apply sort_by_perm.
  rewrite <- (firstn_skipn k (sorted_desc key l)) in Hs.
  destruct (strongly_sorted_app _ _ _ Hs) as [H1 H2].
  split; [unfold r; rewrite length_firstn; lia|].
  split; [exact H1|]. split.
  - intros x Hx. apply (Permutation_in _ Hp). apply (in_firstn _ _ _ Hx).
  - intros x Hx. apply (Permutation_in _ (Permutation_sym Hp)) in Hx.
    rewrite <- (firstn_skipn k (sorted_desc key l)) in Hx.
    apply in_app_or in Hx. destruct Hx as [Hx|Hx]; [left; exact Hx|right].
    split.
    + unfold r. rewrite length_firstn.
      assert (Hl : k < List.length (sorted_desc key l)).
      { destruct (Nat.lt_ge_cases k (List.length (sorted_desc key l))) as [Hlt|Hge];
          [exact Hlt|]. rewrite skipn_all2 in Hx by exact Hge. destruct Hx. }
      lia.
    + intros y Hy. exact (H2 y x Hy Hx).
Qed.

Lemma strongly_sorted_map {A B} (R : B -> B -> Prop) (f : A -> B) (l : list A) :
  StronglySorted (fun u v => R (f u) (f v)) l -> StronglySorted R (map f l).
Proof.
  induction l as [|x l IH]; simpl; intros H; [constructor|].
  apply StronglySorted_inv in H. destruct H as [Hl Hx]. constructor; [apply IH, Hl|].
  apply Forall_map. exact Hx.
Qed.

Lemma strongly_sorted_impl {A} (R S : A -> A -> Prop) (l : list A) :
  (forall x y, R x y -> S x y) -> StronglySorted R l -> StronglySorted S l.
Proof.
  intros HRS. induction l as [|x l IH]; intros H; [constructor|].
  apply StronglySorted_inv in H. destruct H as [Hl Hx]. constructor; [apply IH, Hl|].
  eapply Forall_impl; [|exact Hx]. intros y. apply HRS.
Qed.

End SortFacts.

(* ------------------------------------------------------------------ *)
(** ** Dict keys                                                       *)

Lemma dict_set_keys_in {V} (k k' : string) (v : V) (d : list (string * V)) :
  In k' (map fst (Dict.set k v d)) -> k' = k \/ In k' (map fst d).
Proof.
  induction d as [|[k0 v0] d IH]; simpl; [intros [H|[]]; left; congruence|].
  destruct (String.eqb k k0) eqn:E; simpl.
  - apply String.eqb_eq in E. subst. intros [H|H]; [left; congruence|right; right; exact H].
  - intros [H|H]; [right; left; exact H|]. destruct (IH H) as [H'|H']; [left|right; right]; assumption.
Qed.

Lemma dict_set_nodup {V} (k : string) (v : V) (d : list (string * V)) :
  NoDup (map fst d) -> NoDup (map fst (Dict.set k v d)).
Proof.
  induction d as [|[k0 v0] d IH]; simpl; intros H; [repeat constructor; intros []|].
  inversion H as [|? ? H0 H1]; subst.
  destruct (String.eqb k k0) eqn:E; simpl.
  - apply String.eqb_eq in E. subst. constructor; assumption.
  - constructor; [|apply IH, H1]. intros Hin. apply dict_set_keys_in in Hin.
    destruct Hin as [Hin|Hin]; [apply String.eqb_neq in E; congruence|contradiction].
Qed.

Lemma dict_get_some_key {V} (k : string) (d : list (string * V)) :
  Dict.get k d <> None <-> In k (map fst d).
Proof.
  induction d as [|[k0 v0] d IH]; simpl; [tauto|].
  destruct (String.eqb k k0) eqn:E.
  - apply String.eqb_eq in E. subst. split; [left; reflexivity|discriminate].
  - apply String.eqb_neq in E. rewrite IH. split; [right; assumption|].
    intros [H|H]; [congruence|exact H].
Qed.

Lemma dict_In_get {V} (k : string) (v : V) (d : list (string * V)) :
  NoDup (map fst d) -> In (k, v) d -> Dict.get k d = Some v.
Proof.
  induction d as [|[k0 v0] d IH]; simpl; [tauto|].
  intros Hnd [E|Hin]; inversion Hnd as [|? ? H0 H1]; subst.
  - injection E as <- <-. rewrite String.eqb_refl. reflexivity.
  - destruct (String.eqb k k0) eqn:E.
    + apply String.eqb_eq in E. subst. exfalso. apply H0.
      apply in_map_iff. exists (k0, v). split; [reflexivity|exact Hin].
    + apply IH; assumption.
Qed.

Lemma dict_set_length {V} (k : string) (v : V) (d : list (string * V)) :
  List.length (Dict.set k v d) <= S (List.length d).
Proof.
  induction d as [|[k0 v0] d IH]; simpl; [lia|].
  destruct (String.eqb k k0); simpl; lia.
Qed.

Lemma dict_has_key_set {V} (k k' : string) (v : V) (d : list (string * V)) :
  Dict.has_key k (Dict.set k' v d) = (String.eqb k k' || Dict.has_key k d)%bool.
Proof.
  unfold Dict.has_key. rewrite dict_get_set. destruct (String.eqb k k'); reflexivity.
Qed.

(* ------------------------------------------------------------------ *)
(** ** Graph builder: node table                                       *)

Lemma kg_nodes_nodup (calls : list (string * string * list string)) :
  NoDup (map fst (KG.nodes (KG.add_all KG.empty calls))).
Proof.
  induction calls as [|[[f c] rs] calls IH] using rev_ind; [constructor|].
  unfold KG.add_all in *. rewrite fold_left_app. simpl. apply dict_set_nodup, IH.
Qed.

Lemma kg_nodes_keys (calls : list (string * string * list string)) (id : string) :
  In id (map fst (KG.nodes (KG.add_all KG.empty calls))) <-> In id (map KG.call_key calls).
Proof.
  rewrite <- dict_get_some_key.
  induction calls as [|[[f c] rs] calls IH] using rev_ind; [simpl; tauto|].
  unfold KG.add_all in *. rewrite fold_left_app. cbn [fold_left].
  rewrite node_get_add, map_app, in_app_iff. simpl.
  destruct (String.eqb id f) eqn:E.
  - apply String.eqb_eq in E. subst. split; [intros _; right; left; reflexivity|discriminate].
  - apply String.eqb_neq in E. rewrite IH. split; [tauto|]. intros [H|[H|[]]]; [exact H|congruence].
Qed.

Lemma kg_edges_length (calls : list (string * string * list string)) :
  List.length (KG.edges (KG.add_all KG.empty calls)) =
  list_sum (map (fun '(_, _, rs) => List.length rs) calls).
Proof.
  induction calls as [|[[f c] rs] calls IH] using rev_ind; [reflexivity|].
  unfold KG.add_all in *. rewrite fold_left_app. simpl.
  rewrite length_app, length_map, IH, map_app, list_sum_app. simpl. lia.
Qed.

(** [get_statistics] after a run of [add_circular] calls: ['total_nodes']
    is the number of distinct file names passed, ['total_edges'] the
    total number of references passed, repeated ids included. *)
Theorem statistics_totals (calls : list (string * string * list string)) :
  KGStats.total_nodes (KGStats.get_statistics (KG.add_all KG.empty calls)) =
    List.length (nodup string_dec (map KG.call_key calls)) /\
  KGStats.total_edges (KGStats.get_statistics (KG.add_all KG.empty calls)) =
    list_sum (map (fun '(_, _, rs) => List.length rs) calls).
Proof.
  split; [|apply kg_edges_length].
  cbn [KGStats.get_statistics KGStats.total_nodes].
  rewrite <- (length_map fst).
  apply Nat.le_antisymm; apply NoDup_incl_length.
  - apply kg_nodes_nodup.
  - intros x Hx. apply nodup_In, kg_nodes_keys, Hx.
  - apply NoDup_nodup.
  - intros x Hx. apply kg_nodes_keys, (nodup_In string_dec), Hx.
Qed.

(* ------------------------------------------------------------------ *)
(** ** Rankings of [get_statistics]                                   *)

Lemma ref_counts_fold (es : list KG.edge) (t : string) :
  Dict.get t (fold_left (fun d e =>
    let t := KG.target_reference e in
    Dict.set t (match Dict.get t d with Some c => c | None => 0 end + 1) d) es []) =
  match List.length (filter (fun e => String.eqb (KG.target_reference e) t) es) with
  | 0 => None
  | c => Some c
  end.
Proof.
  induction es as [|e es IH] using rev_ind; [reflexivity|].
  rewrite fold_left_app. cbn [fold_left].
  set (acc := fold_left _ es []) in IH |- *. cbv zeta.
  rewrite dict_get_set, filter_app, length_app. cbn [filter].
  destruct (String.eqb t (KG.target_reference e)) eqn:E.
  - apply String.eqb_eq in E. rewrite <- E, IH, String.eqb_refl.
    cbn [List.length]. destruct (List.length _); reflexivity.
  - rewrite IH, (String.eqb_sym (KG.target_reference e) t), E.
    cbn [List.length]. rewrite Nat.add_0_r. reflexivity.
Qed.

Lemma ref_counts_nodup (g : KG.graph) : NoDup (map fst (KGStats.ref_counts g)).
Proof.
  unfold KGStats.ref_counts.
  assert (H : forall es d0, NoDup (map fst d0) -> NoDup (map fst (fold_left (fun d e =>
    let t := KG.target_reference e in
    Dict.set t (match Dict.get t d with Some c => c | None => 0 end + 1) d) es d0))).
  { induction es as [|e es IH]; intros d0 Hd; simpl; [exact Hd|]. apply IH, dict_set_nodup, Hd. }
  apply H. constructor.
Qed.

Lemma nodup_firstn {A} (k : nat) (l : list A) : NoDup l -> NoDup (firstn k l).
Proof.
  intros H. rewrite <- (firstn_skipn k l) in H. exact (NoDup_app_remove_r _ _ H).
Qed.

(** [_get_most_referenced]: at most ten [(target, count)] pairs, counts
    non-increasing, each target once with the number of edges pointing at
    it; a target left out has no more edges than any target listed, and
    then ten are listed. *)
Theorem most_referenced_top_ten (g : KG.graph) :
  List.length (KGStats.get_most_referenced g) <= 10 /\
  StronglySorted (fun u v => snd v <= snd u) (KGStats.get_most_referenced g) /\
  NoDup (map fst (KGStats.get_most_referenced g)) /\
  (forall t c, In (t, c) (KGStats.get_most_referenced g) ->
     c = KGStats.count_target g t /\ 0 < c) /\
  (forall t, 0 < KGStats.count_target g t ->
     In (t, KGStats.count_target g t) (KGStats.get_most_referenced g) \/
     (List.length (KGStats.get_most_referenced g) = 10 /\
      forall p, In p (KGStats.get_most_referenced g) -> KGStats.count_target g t <= snd p)).
Proof.
  destruct (SortFacts.top_k snd 10 (KGStats.ref_counts g)) as [H1 [H2 [H3 H4]]].
  fold (KGStats.get_most_referenced g) in H1, H2, H3, H4.
  assert (Hget : forall t, Dict.get t (KGStats.ref_counts g) =
            match KGStats.count_target g t with 0 => None | c => Some c end)
    by (intros t; apply ref_counts_fold).
  assert (Hin : forall t c, In (t, c) (KGStats.ref_counts g) ->
            c = KGStats.count_target g t /\ 0 < c).
  { intros t c H. apply (dict_In_get _ _ _ (ref_counts_nodup g)) in H. rewrite Hget in H.
    destruct (KGStats.count_target g t) eqn:E; [discriminate|]. injection H as <-. lia. }
  split; [exact H1|]. split; [exact H2|]. split.
  - unfold KGStats.get_most_referenced. rewrite <- firstn_map. apply nodup_firstn.
    apply (Permutation_NoDup (Permutation_map fst (Permutation_sym (SortFacts.sort_by_perm _ _)))).
    apply ref_counts_nodup.
  - split; [intros t c H; apply Hin, H3, H|].
    intros t Ht. apply H4.
    assert (E := Hget t). destruct (KGStats.count_target g t) eqn:Ec; [lia|].
    apply dict_get_In in E. exact E.
Qed.

(** [_get_most_outgoing_refs]: at most ten [(circular_no, reference_count)]
    pairs of stored nodes, counts non-increasing; a node left out has a
    count no larger than any listed, and then ten are listed. *)
Theorem most_outgoing_top_ten (g : KG.graph) :
  List.length (KGStats.get_most_outgoing_refs g) <= 10 /\
  StronglySorted (fun u v => snd v <= snd u) (KGStats.get_most_outgoing_refs g) /\
  (forall c k, In (c, k) (KGStats.get_most_outgoing_refs g) ->
     exists id n, In (id, n) (KG.nodes g) /\ KG.circular_no n = c /\ KG.reference_count n = k) /\
  (forall id n, In (id, n) (KG.nodes g) ->
     In (KG.circular_no n, KG.reference_count n) (KGStats.get_most_outgoing_refs g) \/
     (List.length (KGStats.get_most_outgoing_refs g) = 10 /\
      forall p, In p (KGStats.get_most_outgoing_refs g) -> KG.reference_count n <= snd p)).
Proof.
  destruct (SortFacts.top_k (fun p => KG.reference_count (snd p)) 10 (KG.nodes g))
    as [H1 [H2 [H3 H4]]].
  set (proj := fun p : string * KG.node => let '(_, n) := p in (KG.circular_no n, KG.reference_count n)).
  assert (Hr : KGStats.get_most_outgoing_refs g =
          map proj (firstn 10 (Sort.sorted_desc (fun p => KG.reference_count (snd p)) (KG.nodes g))))
    by reflexivity.
  rewrite Hr. clear Hr.
  split; [rewrite length_map; exact H1|]. split.
  - apply SortFacts.strongly_sorted_map. eapply SortFacts.strongly_sorted_impl; [|exact H2].
    intros [i1 n1] [i2 n2] H. exact H.
  - split.
    + intros c k H. apply in_map_iff in H. destruct H as [[id n] [E Hin]].
      injection E as <- <-. exists id, n. split; [apply H3, Hin|split; reflexivity].
    + intros id n Hin. destruct (H4 (id, n) Hin) as [H|[Hl Hle]].
      * left. apply in_map_iff. exists (id, n). split; [reflexivity|exact H].
      * right. rewrite length_map. split; [exact Hl|].
        intros p Hp. apply in_map_iff in Hp. destruct Hp as [[id' n'] [<- Hp]].
        exact (Hle _ Hp).
Qed.

(* ------------------------------------------------------------------ *)
(** ** XML escaping                                                    *)

Module XmlFacts.
Import Xml.

Lemma str_app_assoc (a b c : string) : (a ++ (b ++ c))%string = ((a ++ b) ++ c)%string.
Proof. induction a as [|x a IH]; simpl; [reflexivity|]. rewrite IH. reflexivity. Qed.

Lemma replace_char_app (c : ascii) (rep s1 s2 : string) :
  replace_char c rep (s1 ++ s2) = (replace_char c rep s1 ++ replace_char c rep s2)%string.
Proof.
  induction s1 as [|x s1 IH]; simpl; [reflexivity|].
  destruct (Ascii.eqb x c); rewrite IH; [apply str_app_assoc|reflexivity].
Qed.

Lemma escape_one (c : ascii) : escape_xml (String c EmptyString) = esc_char c.
Proof.
  unfold escape_xml, esc_char.
  destruct (Ascii.eqb c "&") eqn:E1; [apply Ascii.eqb_eq in E1; subst; reflexivity|].
  simpl. rewrite E1. simpl.
  destruct (Ascii.eqb c "<") eqn:E2; [apply Ascii.eqb_eq in E2; subst; reflexivity|].
  simpl. destruct (Ascii.eqb c ">") eqn:E3; [apply Ascii.eqb_eq in E3; subst; reflexivity|].
  simpl. destruct (Ascii.eqb c dquote) eqn:E4; [apply Ascii.eqb_eq in E4; subst; reflexivity|].
  simpl. destruct (Ascii.eqb c "'") eqn:E5; [apply Ascii.eqb_eq in E5; subst; reflexivity|].
  reflexivity.
Qed.

Lemma escape_cons (c : ascii) (t : string) :
  escape_xml (String c t) = (esc_char c ++ escape_xml t)%string.
Proof.
  rewrite <- escape_one. change (String c t) with (String c EmptyString ++ t)%string.
  unfold escape_xml. rewrite !replace_char_app. reflexivity.
Qed.

Lemma has_char_app (x : ascii) (s1 s2 : string) :
  has_char x (s1 ++ s2) = (has_char x s1 || has_char x s2)%bool.
Proof.
  induction s1 as [|c s1 IH]; simpl; [reflexivity|]. rewrite IH. apply orb_assoc.
Qed.

Lemma esc_char_cases (c : ascii) :
  (c = "&"%char /\ esc_char c = "&amp;") \/ (c = "<"%char /\ esc_char c = "&lt;") \/
  (c = ">"%char /\ esc_char c = "&gt;") \/ (c = dquote /\ esc_char c = "&quot;") \/
  (c = "'"%char /\ esc_char c = "&apos;") \/
  (xml_special c = false /\ esc_char c = String c EmptyString).
Proof.
  unfold esc_char, xml_special.
  destruct (Ascii.eqb c "&") eqn:E1; [left; apply Ascii.eqb_eq in E1; auto|].
  destruct (Ascii.eqb c "<") eqn:E2; [right; left; apply Ascii.eqb_eq in E2; auto|].
  destruct (Ascii.eqb c ">") eqn:E3; [do 2 right; left; apply Ascii.eqb_eq in E3; auto|].
  destruct (Ascii.eqb c dquote) eqn:E4; [do 3 right; left; apply Ascii.eqb_eq in E4; auto|].
  destruct (Ascii.eqb c "'") eqn:E5; [do 4 right; left; apply Ascii.eqb_eq in E5; auto|].
  do 5 right. auto.
Qed.

Lemma string_app_inv_l (p s1 s2 : string) : (p ++ s1)%string = (p ++ s2)%string -> s1 = s2.
Proof. induction p as [|c p IH]; simpl; [auto|]. intros H. injection H as H. apply IH, H. Qed.

Lemma esc_char_prefix (c1 c2 : ascii) (s1 s2 : string) :
  (esc_char c1 ++ s1)%string = (esc_char c2 ++ s2)%string -> c1 = c2 /\ s1 = s2.
Proof.
  destruct (esc_char_cases c1) as [[-> ->]|[[-> ->]|[[-> ->]|[[-> ->]|[[-> ->]|[N1 ->]]]]]];
  destruct (esc_char_cases c2) as [[-> ->]|[[-> ->]|[[-> ->]|[[-> ->]|[[-> ->]|[N2 ->]]]]]];
  intros H;
  first [ split; [reflexivity|exact (string_app_inv_l _ _ _ H)]
        | discriminate H
        | (simpl in H; injection H as Hc Hs; subst; split; reflexivity)
        | (simpl in H; injection H as Hc _; subst; discriminate) ].
Qed.

End XmlFacts.

(** [_escape_xml]: its output never contains [<], [>] or either quote
    character, and a string without any of the five characters it
    rewrites ([&], [<], [>] and both quotes) comes back unchanged. *)
Theorem escape_xml_no_markup (s : string) :
  has_char "<" (Xml.escape_xml s) = false /\ has_char ">" (Xml.escape_xml s) = false /\
  has_char Xml.dquote (Xml.escape_xml s) = false /\ has_char "'" (Xml.escape_xml s) = false /\
  (all_chars (fun c => negb (Xml.xml_special c)) s = true -> Xml.escape_xml s = s).
Proof.
  assert (Hno : forall x, (x = "<"%char \/ x = ">"%char \/ x = Xml.dquote \/ x = "'"%char) ->
            forall s0, has_char x (Xml.escape_xml s0) = false).
  { intros x Hx s0. induction s0 as [|c t IH]; [reflexivity|].
    rewrite XmlFacts.escape_cons, XmlFacts.has_char_app, IH, orb_false_r.
    destruct (XmlFacts.esc_char_cases c)
      as [[-> ->]|[[-> ->]|[[-> ->]|[[-> ->]|[[-> ->]|[N ->]]]]]];
      destruct Hx as [-> | [-> | [-> | ->]]]; try reflexivity;
      unfold Xml.xml_special in N; simpl; rewrite orb_false_r;
      apply Bool.orb_false_iff in N; destruct N as [N N5];
      apply Bool.orb_false_iff in N; destruct N as [N N4];
      apply Bool.orb_false_iff in N; destruct N as [N N3];
      apply Bool.orb_false_iff in N; destruct N as [N1 N2];
      assumption. }
  split; [apply Hno; tauto|].
  split; [apply Hno; tauto|].
  split; [apply Hno; tauto|].
  split; [apply Hno; tauto|].
  induction s as [|c t IH]; [reflexivity|]. simpl. intros H.
  apply andb_prop in H. destruct H as [Hc Ht].
  rewrite XmlFacts.escape_cons, (IH Ht).
  destruct (XmlFacts.esc_char_cases c)
    as [[-> _]|[[-> _]|[[-> _]|[[-> _]|[[-> _]|[_ ->]]]]]]; try discriminate; reflexivity.
Qed.

(** [_escape_xml] loses nothing: different strings are escaped to
    different strings. *)
Theorem escape_xml_injective (s1 s2 : string) :
  Xml.escape_xml s1 = Xml.escape_xml s2 -> s1 = s2.
Proof.
  revert s2. induction s1 as [|c1 t1 IH]; intros [|c2 t2] H.
  - reflexivity.
  - rewrite XmlFacts.escape_cons in H.
    destruct (XmlFacts.esc_char_cases c2)
      as [[_ E]|[[_ E]|[[_ E]|[[_ E]|[[_ E]|[_ E]]]]]]; rewrite E in H; discriminate.
  - rewrite XmlFacts.escape_cons in H.
    destruct (XmlFacts.esc_char_cases c1)
      as [[_ E]|[[_ E]|[[_ E]|[[_ E]|[[_ E]|[_ E]]]]]]; rewrite E in H; discriminate.
  - rewrite !XmlFacts.escape_cons in H. apply XmlFacts.esc_char_prefix in H.
    destruct H as [-> H]. f_equal. apply IH, H.
Qed.

(** Witness of [escape_xml_injective]. *)
Lemma escape_xml_injective_witness :
  Xml.escape_xml "a<b" = Xml.escape_xml "a<b" /\ "a<b" = "a<b".
Proof.
  split; [reflexivity|]. apply escape_xml_injective. reflexivity.
Defined.

(** Witness of [escape_xml_no_markup]. *)
Lemma escape_xml_no_markup_witness :
  all_chars (fun c => negb (Xml.xml_special c)) "SEBI/HO/1" = true /\
  Xml.escape_xml "SEBI/HO/1" = "SEBI/HO/1".
Proof.
  split; [reflexivity|]. apply (escape_xml_no_markup "SEBI/HO/1"). reflexivity.
Defined.

(* ------------------------------------------------------------------ *)
(** ** Graph builder: edges point out of stored nodes                  *)

(** [add_circular] keeps every edge's source in the node table: after
    any run of calls, each edge leaves a node that is stored. *)
Theorem kg_edge_sources_are_nodes (calls : list (string * string * list string)) (e : KG.edge) :
  In e (KG.edges (KG.add_all KG.empty calls)) ->
  Dict.has_key (KG.source e) (KG.nodes (KG.add_all KG.empty calls)) = true.
Proof.
  induction calls as [|[[f c] rs] calls IH] using rev_ind; [intros []|].
  unfold KG.add_all in *. rewrite !fold_left_app. cbn [fold_left KG.add_circular KG.edges KG.nodes].
  rewrite dict_has_key_set. intros H. apply in_app_or in H. destruct H as [H|H].
  - rewrite (IH H). apply orb_true_r.
  - apply in_map_iff in H. destruct H as [r [<- _]]. simpl. rewrite String.eqb_refl. reflexivity.
Qed.

(** Witness of [kg_edge_sources_are_nodes]. *)
Lemma kg_edge_sources_are_nodes_witness :
  In (KG.mk_edge "a.pdf" "C1" "R") (KG.edges (KG.add_all KG.empty [("a.pdf", "C1", ["R"])])) /\
  Dict.has_key "a.pdf" (KG.nodes (KG.add_all KG.empty [("a.pdf", "C1", ["R"])])) = true.
Proof.
  assert (H : In (KG.mk_edge "a.pdf" "C1" "R")
                (KG.edges (KG.add_all KG.empty [("a.pdf", "C1", ["R"])]))) by (simpl; auto).
  split; [exact H|]. exact (kg_edge_sources_are_nodes _ _ H).
Defined.

(* ------------------------------------------------------------------ *)
(** ** [load_graph]                                                    *)

Lemma load_nodes_fold (l : list Analyzer.jnode) (d0 : list (string * Analyzer.jnode)) (id : string) :
  Dict.get id (fold_left (fun d n => Dict.set (Analyzer.jid n) n d) l d0) =
  match find (fun n => String.eqb (Analyzer.jid n) id) (rev l) with
  | Some n => Some n
  | None => Dict.get id d0
  end.
Proof.
  induction l as [|n l IH] using rev_ind; [reflexivity|].
  rewrite fold_left_app, rev_app_distr. simpl. rewrite dict_get_set, IH.
  rewrite (String.eqb_sym (Analyzer.jid n) id). destruct (String.eqb id (Analyzer.jid n)); reflexivity.
Qed.

Lemma load_nodes_nodup (l : list Analyzer.jnode) (d0 : list (string * Analyzer.jnode)) :
  NoDup (map fst d0) ->
  NoDup (map fst (fold_left (fun d n => Dict.set (Analyzer.jid n) n d) l d0)).
Proof.
  revert d0. induction l as [|n l IH]; intros d0 H; simpl; [exact H|].
  apply IH, dict_set_nodup, H.
Qed.

(** [load_graph] with repeated ids in [data['nodes']]: the node table
    keeps, for each id, the last node listed with it. *)
Theorem load_graph_node_last_wins (jnodes : list Analyzer.jnode) (jedges : list Analyzer.jedge)
    (id : string) :
  Dict.get id (Analyzer.nodes (Analyzer.load_graph jnodes jedges)) =
  find (fun n => String.eqb (Analyzer.jid n) id) (rev jnodes).
Proof.
  unfold Analyzer.load_graph. cbn [Analyzer.nodes]. rewrite load_nodes_fold.
  destruct (find _ _); reflexivity.
Qed.

Lemma ctn_fold (l : list (string * Analyzer.jnode)) (d0 : list (string * string)) (c : string) :
  Dict.get c (fold_left (fun d '(node_id, n) =>
      let circ_no := Analyzer.circ_of n in
      if String.eqb circ_no "" then d else Dict.set circ_no node_id d) l d0) =
  match find (fun p => (negb (String.eqb (Analyzer.circ_of (snd p)) "") &&
                        String.eqb (Analyzer.circ_of (snd p)) c)%bool) (rev l) with
  | Some p => Some (fst p)
  | None => Dict.get c d0
  end.
Proof.
  induction l as [|[id n] l IH] using rev_ind; [reflexivity|].
  rewrite fold_left_app, rev_app_distr. cbn [fold_left].
  set (acc := fold_left _ l d0) in IH |- *. cbv zeta. cbn [rev app find fst snd].
  destruct (String.eqb (Analyzer.circ_of n) "") eqn:E; cbn [negb andb].
  - exact IH.
  - rewrite dict_get_set, IH, (String.eqb_sym (Analyzer.circ_of n) c).
    destruct (String.eqb c (Analyzer.circ_of n)); reflexivity.
Qed.

(** [load_graph]'s alias map [circular_to_node]: an empty circular number
    is never a key; a non-empty one is sent to the last node of the node
    table that carries it. *)
Theorem load_graph_alias_last_wins (jnodes : list Analyzer.jnode) (jedges : list Analyzer.jedge)
    (c : string) :
  Dict.get c (Analyzer.circular_to_node (Analyzer.load_graph jnodes jedges)) =
  if String.eqb c "" then None
  else option_map fst
         (find (fun p => String.eqb (Analyzer.circ_of (snd p)) c)
            (rev (Analyzer.nodes (Analyzer.load_graph jnodes jedges)))).
Proof.
  unfold Analyzer.load_graph. cbn [Analyzer.circular_to_node Analyzer.nodes].
  rewrite ctn_fold. generalize (rev (fold_left (fun d n => Dict.set (Analyzer.jid n) n d) jnodes [])).
  intros l. destruct (String.eqb c "") eqn:Ec.
  - apply String.eqb_eq in Ec. subst c.
    induction l as [|[id n] l IH]; [reflexivity|]. simpl.
    destruct (String.eqb (Analyzer.circ_of n) "") eqn:E; simpl; try rewrite E; exact IH.
  - induction l as [|[id n] l IH]; [reflexivity|]. simpl.
    destruct (String.eqb (Analyzer.circ_of n) c) eqn:E.
    + apply String.eqb_eq in E. subst c. rewrite Ec. reflexivity.
    + rewrite andb_false_r. exact IH.
Qed.

Lemma refmap_fold (es : list Analyzer.jedge) (t : string) :
  Dict.get t (fold_left (fun d e =>
      let old := match Dict.get (Analyzer.jtarget_reference e) d with Some l => l | None => [] end in
      Dict.set (Analyzer.jtarget_reference e) (old ++ [Analyzer.jsource e])%list d) es []) =
  match map Analyzer.jsource (filter (fun e => String.eqb (Analyzer.jtarget_reference e) t) es) with
  | [] => None
  | srcs => Some srcs
  end.
Proof.
  induction es as [|e es IH] using rev_ind; [reflexivity|].
  rewrite fold_left_app. cbn [fold_left].
  set (acc := fold_left _ es []) in IH |- *. cbv zeta.
  rewrite dict_get_set, filter_app, map_app. cbn [filter].
  destruct (String.eqb t (Analyzer.jtarget_reference e)) eqn:E.
  - apply String.eqb_eq in E. rewrite <- E, IH, String.eqb_refl. simpl.
    destruct (map _ _); reflexivity.
  - rewrite IH, (String.eqb_sym (Analyzer.jtarget_reference e) t), E. simpl.
    rewrite app_nil_r. reflexivity.
Qed.

(** [load_graph]'s [reference_map]: a target has an entry exactly when
    some edge points at it, and the entry lists the sources of the edges
    pointing at it, in edge order, repeats included. *)
Theorem load_graph_reference_map (jnodes : list Analyzer.jnode) (jedges : list Analyzer.jedge)
    (t : string) :
  Dict.get t (Analyzer.reference_map (Analyzer.load_graph jnodes jedges)) =
  match map Analyzer.jsource
          (filter (fun e => String.eqb (Analyzer.jtarget_reference e) t) jedges) with
  | [] => None
  | srcs => Some srcs
  end.
Proof. apply refmap_fold. Qed.

(** [_fuzzy_match_reference] on a loaded graph lists node ids of the
    node table, each at most once. *)
Theorem fuzzy_matches_distinct_node_ids (jnodes : list Analyzer.jnode)
    (jedges : list Analyzer.jedge) (ref : string) :
  NoDup (Analyzer.fuzzy_match_reference (Analyzer.load_graph jnodes jedges) ref) /\
  (forall id, In id (Analyzer.fuzzy_match_reference (Analyzer.load_graph jnodes jedges) ref) ->
     Dict.has_key id (Analyzer.nodes (Analyzer.load_graph jnodes jedges)) = true).
Proof.
  assert (Hnd : NoDup (map fst (Analyzer.nodes (Analyzer.load_graph jnodes jedges))))
    by (apply load_nodes_nodup; constructor).
  unfold Analyzer.fuzzy_match_reference.
  generalize dependent (Analyzer.nodes (Analyzer.load_graph jnodes jedges)). intros l Hnd.
  split.
  - induction l as [|[id n] l IH]; simpl; [constructor|].
    inversion Hnd as [|? ? H0 H1]; subst.
    destruct (_ || _)%bool; simpl; [|apply IH, H1].
    constructor; [|apply IH, H1]. intros Hin. apply H0.
    apply in_map_iff in Hin. destruct Hin as [p [<- Hp]]. apply filter_In in Hp.
    apply in_map, Hp.
  - intros id Hin. apply in_map_iff in Hin. destruct Hin as [[id' n] [Eq Hp]].
    simpl in Eq. subst id'. apply filter_In in Hp. destruct Hp as [Hp _].
    unfold Dict.has_key. destruct (Dict.get id l) eqn:E; [reflexivity|].
    exfalso. apply (proj2 (dict_get_some_key id l)); [|exact E].
    apply in_map_iff. exists (id, n). split; [reflexivity|exact Hp].
Qed.

(* ------------------------------------------------------------------ *)
(** ** Export to JSON and reload                                       *)

Lemma reload_nodes_fold (l : list (string * KG.node)) (acc : list (string * Analyzer.jnode)) :
  NoDup (map fst l) -> (forall k, In k (map fst l) -> ~ In k (map fst acc)) ->
  fold_left (fun d n => Dict.set (Analyzer.jid n) n d)
    (map (fun '(node_id, n) => JsonExport.export_node node_id n) l) acc =
  (acc ++ map (fun '(node_id, n) => (node_id, JsonExport.export_node node_id n)) l)%list.
Proof.
  revert acc. induction l as [|[k n] l IH]; intros acc Hnd Hfresh; simpl; [rewrite app_nil_r; reflexivity|].
  inversion Hnd as [|? ? Hk Hl]; subst.
  rewrite dict_set_new by (apply Hfresh; left; reflexivity).
  rewrite IH; [rewrite <- app_assoc; reflexivity|exact Hl|].
  intros k' Hin. rewrite map_app, in_app_iff. simpl. intros [H|[H|[]]].
  - apply (Hfresh k'); [right; exact Hin|exact H].
  - subst. contradiction.
Qed.

Lemma dict_get_map {V W} (f : string -> V -> W) (l : list (string * V)) (id : string) :
  Dict.get id (map (fun '(k, v) => (k, f k v)) l) = option_map (f id) (Dict.get id l).
Proof.
  induction l as [|[k v] l IH]; simpl; [reflexivity|].
  destruct (String.eqb id k) eqn:E; [apply String.eqb_eq in E; subst; reflexivity|exact IH].
Qed.

(** [export_to_json] read back by [KnowledgeGraphAnalyzer]: for a graph
    built by [add_circular] calls, the analyzer's node table is the
    builder's, each node read back with its id, circular number and
    references; [_get_node_references(id)] lists the references of every
    call made for [id], in call order, while [nodes[id]['references']]
    lists only those of the last call. *)
Theorem json_export_reload (calls : list (string * string * list string)) :
  (forall id, Dict.get id (Analyzer.nodes (JsonExport.reload (KG.add_all KG.empty calls))) =
     option_map (JsonExport.export_node id) (Dict.get id (KG.nodes (KG.add_all KG.empty calls)))) /\
  (forall id, Analyzer.node_refs (JsonExport.reload (KG.add_all KG.empty calls)) id =
     match Dict.get id (KG.nodes (KG.add_all KG.empty calls)) with
     | Some n => KG.references n
     | None => []
     end) /\
  (forall id, get_node_references (JsonExport.reload (KG.add_all KG.empty calls)) id =
     KG.refs_for id calls).
Proof.
  set (g := KG.add_all KG.empty calls).
  assert (Hn : Analyzer.nodes (JsonExport.reload g) =
               map (fun '(node_id, n) => (node_id, JsonExport.export_node node_id n)) (KG.nodes g)).
  { unfold JsonExport.reload, Analyzer.load_graph, JsonExport.export_nodes. cbn [Analyzer.nodes].
    apply reload_nodes_fold; [apply kg_nodes_nodup|intros k _ []]. }
  assert (Hget : forall id, Dict.get id (Analyzer.nodes (JsonExport.reload g)) =
            option_map (JsonExport.export_node id) (Dict.get id (KG.nodes g))).
  { intros id. rewrite Hn. apply (dict_get_map JsonExport.export_node). }
  split; [exact Hget|]. split.
  - intros id. unfold Analyzer.node_refs. rewrite Hget.
    destruct (Dict.get id (KG.nodes g)); reflexivity.
  - intros id. rewrite <- add_all_edges. fold g.
    unfold get_node_references, JsonExport.reload, Analyzer.load_graph, KG.edges_from.
    cbn [Analyzer.edges]. unfold JsonExport.export_edges.
    induction (KG.edges g) as [|e es IH]; simpl; [reflexivity|].
    destruct (String.eqb (KG.source e) id); simpl; rewrite IH; reflexivity.
Qed.

(* ------------------------------------------------------------------ *)
(** ** Upper-casing and the matchers                                   *)

Module CaseFacts.

Lemma lower_code (c : ascii) :
  is_lower c = true -> 97 <= nat_of_ascii c <= 122 /\
  nat_of_ascii (upper_char c) = nat_of_ascii c - 32.
Proof.
  intros H. unfold upper_char. rewrite H. unfold is_lower in H.
  apply andb_prop in H. destruct H as [H1 H2]. apply Nat.leb_le in H1, H2.
  split; [lia|]. apply nat_ascii_embedding. assert (Hb := nat_ascii_bounded c). lia.
Qed.

Lemma ascii_neq_code (a b : ascii) : nat_of_ascii a <> nat_of_ascii b -> Ascii.eqb a b = false.
Proof.
  intros H. destruct (Ascii.eqb a b) eqn:E; [|reflexivity].
  apply Ascii.eqb_eq in E. subst. contradiction.
Qed.

Lemma upper_char_idem (c : ascii) : upper_char (upper_char c) = upper_char c.
Proof.
  destruct (is_lower c) eqn:E.
  - destruct (lower_code c E) as [Hr Hc]. unfold upper_char at 1.
    replace (is_lower (upper_char c)) with false; [reflexivity|].
    unfold is_lower. rewrite Hc. symmetry. apply andb_false_iff. left. apply Nat.leb_gt. lia.
  - unfold upper_char. rewrite E, E. reflexivity.
Qed.

Lemma upper_char_space (c : ascii) : Ascii.eqb (upper_char c) " " = Ascii.eqb c " ".
Proof.
  destruct (is_lower c) eqn:E; [|unfold upper_char; rewrite E; reflexivity].
  destruct (lower_code c E) as [Hr Hc].
  rewrite (ascii_neq_code (upper_char c) " "), (ascii_neq_code c " ");
    try reflexivity; try rewrite Hc; change (nat_of_ascii " ") with 32; lia.
Qed.

Lemma upper_char_is_space (c : ascii) : is_space_py (upper_char c) = is_space_py c.
Proof.
  destruct (is_lower c) eqn:E; [|unfold upper_char; rewrite E; reflexivity].
  destruct (lower_code c E) as [Hr Hc]. unfold is_space_py. rewrite Hc.
  assert (F : forall n, 65 <= n -> ((Nat.leb 9 n && Nat.leb n 13) || (Nat.leb 28 n && Nat.leb n 32))%bool = false).
  { intros n Hn. apply orb_false_iff. split; apply andb_false_iff; right; apply Nat.leb_gt; lia. }
  rewrite !F by lia. reflexivity.
Qed.

Lemma upper_idem (s : string) : upper (upper s) = upper s.
Proof. induction s as [|c t IH]; simpl; [reflexivity|]. rewrite upper_char_idem, IH. reflexivity. Qed.

Lemma remove_spaces_upper (s : string) : remove_spaces (upper s) = upper (remove_spaces s).
Proof.
  induction s as [|c t IH]; simpl; [reflexivity|]. rewrite upper_char_space, IH.
  destruct (Ascii.eqb c " "); reflexivity.
Qed.

Lemma lstrip_upper (s : string) : lstrip (upper s) = upper (lstrip s).
Proof.
  induction s as [|c t IH]; simpl; [reflexivity|]. rewrite upper_char_is_space.
  destruct (is_space_py c); [exact IH|reflexivity].
Qed.

Lemma rstrip_upper (s : string) : rstrip (upper s) = upper (rstrip s).
Proof.
  induction s as [|c t IH]; simpl; [reflexivity|]. rewrite IH, upper_char_is_space.
  destruct (rstrip t); simpl; [destruct (is_space_py c)|]; reflexivity.
Qed.

Lemma norm_search_upper (r : string) : norm_search (upper r) = norm_search r.
Proof.
  unfold norm_search, strip. rewrite lstrip_upper, rstrip_upper, remove_spaces_upper.
  apply upper_idem.
Qed.

Lemma norm_fuzzy_upper (r : string) : norm_fuzzy (upper r) = norm_fuzzy r.
Proof. unfold norm_fuzzy. rewrite remove_spaces_upper. apply upper_idem. Qed.

End CaseFacts.

(** Letter case of the reference does not matter: searching the
    circular database, or fuzzy matching in the analyzer, for [r] and for
    [r.upper()] give the same answer. *)
Theorem matching_ignores_case (cs : list Database.circular) (a : Analyzer.analyzer) (r : string) :
  Database.search cs (upper r) = Database.search cs r /\
  Analyzer.fuzzy_match_reference a (upper r) = Analyzer.fuzzy_match_reference a r.
Proof.
  split.
  - unfold Database.search. rewrite CaseFacts.norm_search_upper. reflexivity.
  - unfold Analyzer.fuzzy_match_reference. rewrite CaseFacts.norm_fuzzy_upper. reflexivity.
Qed.

Module StripFacts.

Lemma lstrip_suffix (s : string) : exists p, s = (p ++ lstrip s)%string.
Proof.
  induction s as [|c t [p IH]]; simpl; [exists ""; reflexivity|].
  destruct (is_space_py c); [exists (String c p); simpl; rewrite <- IH; reflexivity|].
  exists ""; reflexivity.
Qed.

Lemma rstrip_prefix (s : string) : exists q, s = (rstrip s ++ q)%string.
Proof.
  induction s as [|c t [q IH]]; simpl; [exists ""; reflexivity|].
  destruct (rstrip t) as [|x y] eqn:E.
  - simpl in IH. destruct (is_space_py c); [exists (String c q)|exists q]; simpl; rewrite <- IH; reflexivity.
  - exists q. simpl. rewrite IH. reflexivity.
Qed.

Lemma strip_middle (s : string) : exists p q, s = (p ++ (strip s ++ q))%string.
Proof.
  destruct (lstrip_suffix s) as [p Hp]. destruct (rstrip_prefix (lstrip s)) as [q Hq].
  exists p, q. unfold strip. rewrite <- Hq. exact Hp.
Qed.

Lemma remove_spaces_app (s1 s2 : string) :
  remove_spaces (s1 ++ s2) = (remove_spaces s1 ++ remove_spaces s2)%string.
Proof.
  induction s1 as [|c t IH]; simpl; [reflexivity|]. rewrite IH.
  destruct (Ascii.eqb c " "); reflexivity.
Qed.

Lemma upper_app (s1 s2 : string) : upper (s1 ++ s2) = (upper s1 ++ upper s2)%string.
Proof. induction s1 as [|c t IH]; simpl; [reflexivity|]. rewrite IH. reflexivity. Qed.

Lemma is_prefix_app (m q : string) : is_prefix m (m ++ q) = true.
Proof.
  induction m as [|c t IH]; simpl; [destruct q; reflexivity|].
  rewrite Ascii.eqb_refl. exact IH.
Qed.

Lemma contains_middle (p m q : string) : contains m (p ++ (m ++ q)) = true.
Proof.
  induction p as [|c t IH].
  - simpl. destruct m; simpl; [destruct q; reflexivity|].
    rewrite Ascii.eqb_refl, is_prefix_app. reflexivity.
  - simpl. rewrite IH. destruct m; simpl; [reflexivity|]. apply orb_true_r.
Qed.

Lemma str_app_nil_r (s : string) : (s ++ "")%string = s.
Proof. induction s as [|c t IH]; simpl; [reflexivity|]. rewrite IH. reflexivity. Qed.

End StripFacts.

(** A stored circular is found by its own number: searching the
    database for the circular number of one of its circulars returns that
    circular, and fuzzy matching the circular number of a node returns
    that node's id. *)
Theorem search_finds_own_number (cs : list Database.circular) (c : Database.circular)
    (a : Analyzer.analyzer) (id : string) (n : Analyzer.jnode) :
  (In c cs -> In c (Database.search cs (Database.circular_no c))) /\
  (In (id, n) (Analyzer.nodes a) ->
   In id (Analyzer.fuzzy_match_reference a (Analyzer.circ_of n))).
Proof.
  split.
  - intros Hc. unfold Database.search. apply filter_In. split; [exact Hc|].
    destruct (StripFacts.strip_middle (Database.circular_no c)) as [p [q E]].
    unfold norm_search, norm_fuzzy. rewrite E at 2.
    rewrite !StripFacts.remove_spaces_app, !StripFacts.upper_app.
    rewrite StripFacts.contains_middle. reflexivity.
  - intros Hn. unfold Analyzer.fuzzy_match_reference. apply in_map_iff.
    exists (id, n). split; [reflexivity|]. apply filter_In. split; [exact Hn|].
    pose proof (StripFacts.contains_middle "" (norm_fuzzy (Analyzer.circ_of n)) "") as H.
    rewrite StripFacts.str_app_nil_r in H. simpl in H. rewrite H. reflexivity.
Qed.

(** Witness of [search_finds_own_number]. *)
Lemma search_finds_own_number_witness :
  In (Database.mk_circular "T" " SEBI/HO/1 ")
    (Database.search [Database.mk_circular "T" " SEBI/HO/1 "] " SEBI/HO/1 ").
Proof.
  refine (proj1 (search_finds_own_number [Database.mk_circular "T" " SEBI/HO/1 "]
                   (Database.mk_circular "T" " SEBI/HO/1 ") spaced_graph "" (Analyzer.mk_jnode "" None [])) _).
  left. reflexivity.
Defined.

(* ------------------------------------------------------------------ *)
(** ** Traversal: shape of the level sets                              *)

Module ShapeFacts.
Import Analyzer Traversal TraversalFacts LevelFacts TraversalShape.
Local Open Scope list_scope.

Lemma add_level_keeps_key (k : Z) (x : string) (lv : levels) (L : Z) (ys : list string) :
  In (L, ys) lv -> exists zs, In (L, zs) (add_level k x lv).
Proof.
  intros H. unfold add_level. destruct (lget k lv) as [s|] eqn:E.
  - destruct (lget_split k lv s E) as [pre [post [Hlv Hset]]]. rewrite Hset.
    rewrite Hlv in H. apply in_app_or in H. destruct H as [H|[Heq|H]].
    + exists ys. apply in_or_app. left. exact H.
    + injection Heq as HL Hs; subst L ys. exists (set_add x s). apply in_or_app. right. left. reflexivity.
    + exists ys. apply in_or_app. right. right. exact H.
  - exists ys. apply in_or_app. left. exact H.
Qed.

Lemma set_add_In (x y : string) (s : list string) : In y s \/ y = x -> In y (set_add x s).
Proof.
  unfold set_add. destruct (mem x s) eqn:Hm.
  - apply mem_In in Hm. intros [H| ->]; assumption.
  - intros [H| ->]; apply in_or_app; [left; exact H|right; left; reflexivity].
Qed.

Lemma add_level_keeps_In (k : Z) (x : string) (lv : levels) (L : Z) (y : string) :
  In_lv L y lv \/ (L = k /\ y = x) -> In_lv L y (add_level k x lv).
Proof.
  intros Hy. unfold add_level. destruct (lget k lv) as [s|] eqn:E.
  - destruct (lget_split k lv s E) as [pre [post [Hlv Hset]]]. rewrite Hset.
    destruct Hy as [[ys [H Hy]] | [-> ->]].
    + rewrite Hlv in H. apply in_app_or in H. destruct H as [H|[Heq|H]].
      * exists ys. split; [apply in_or_app; left; exact H|exact Hy].
      * injection Heq as HL Hs; subst L ys. exists (set_add x s).
        split; [apply in_or_app; right; left; reflexivity|apply set_add_In; left; exact Hy].
      * exists ys. split; [apply in_or_app; right; right; exact H|exact Hy].
    + exists (set_add x s).
      split; [apply in_or_app; right; left; reflexivity|apply set_add_In; right; reflexivity].
  - destruct Hy as [[ys [H Hy]] | [-> ->]].
    + exists ys. split; [apply in_or_app; left; exact H|exact Hy].
    + exists [x]. split; [apply in_or_app; right; left; reflexivity|left; reflexivity].
Qed.

Lemma add_level_nonempty (k : Z) (x : string) (lv : levels) (L : Z) (xs : list string) :
  (forall L' ys, In (L', ys) lv -> ys <> []) -> In (L, xs) (add_level k x lv) -> xs <> [].
Proof.
  intros Hne. unfold add_level. destruct (lget k lv) as [s|] eqn:E.
  - destruct (lget_split k lv s E) as [pre [post [Hlv Hset]]]. rewrite Hset.
    intros H. apply in_app_or in H. destruct H as [H|[Heq|H]].
    + apply (Hne L). rewrite Hlv. apply in_or_app. left. exact H.
    + injection Heq as _ <-. intros Hnil. assert (Hx : In x (set_add x s)) by (apply set_add_In; right; reflexivity).
      rewrite Hnil in Hx. destruct Hx.
    + apply (Hne L). rewrite Hlv. apply in_or_app. right. right. exact H.
  - intros H. apply in_app_or in H. destruct H as [H|[Heq|[]]]; [exact (Hne L xs H)|].
    injection Heq as _ <-. discriminate.
Qed.

Lemma shape_visited (a : analyzer) (sd : list string) (d : Z) (lv : levels) (vis vis' : list string)
    (q : list (string * Z)) :
  Shape a sd d (mk_state lv vis q) -> Shape a sd d (mk_state lv vis' q).
Proof. intros H. exact H. Qed.

Lemma push_shape (a : analyzer) (sd : list string) (d l : Z) (st : state) (r : string) :
  Shape a sd d st -> (2 <= l)%Z -> (l = 2 \/ l <= d)%Z ->
  (l <> 2%Z -> exists ys, In ((l - 1)%Z, ys) (st_levels st)) ->
  (l = 2%Z -> In r sd) -> (l <> 2%Z -> In r (all_refs a)) ->
  Shape a sd d (push l st r) /\
  (l <> 2%Z -> exists ys, In ((l - 1)%Z, ys) (st_levels (push l st r))).
Proof.
  intros [HQ [HK HE]] H2 Hd Hprev Hsd Hall. unfold push.
  destruct (mem r (visited st)); [split; [split; [exact HQ|split; assumption]|exact Hprev]|].
  cbn [st_levels queue].
  assert (Hne : forall L ys, In (L, ys) (st_levels st) -> ys <> [])
    by (intros L ys H; exact (proj1 (proj2 (proj2 (HK L ys H))))).
  split; [split; [|split]|].
  - intros r' l' Hin. apply in_app_or in Hin. destruct Hin as [Hin|[Heq|[]]].
    + destruct (HQ r' l' Hin) as [A [B C]]. split; [exact A|split; [exact B|]].
      apply add_level_keeps_In. left. exact C.
    + injection Heq as <- <-. split; [exact H2|split; [exact Hd|]].
      apply add_level_keeps_In. right. split; reflexivity.
  - intros L xs Hin. pose proof (add_level_nonempty _ _ _ _ _ Hne Hin) as Hxs.
    apply add_level_keys in Hin. destruct Hin as [[zs Hz] | ->].
    + destruct (HK L zs Hz) as [A [B [_ D]]]. split; [exact A|split; [exact B|split; [exact Hxs|]]].
      intros HL. destruct (D HL) as [ys Hys]. apply (add_level_keeps_key _ _ _ _ _ Hys).
    + split; [exact H2|split; [exact Hd|split; [exact Hxs|]]].
      intros HL. destruct (Hprev HL) as [ys Hys]. apply (add_level_keeps_key _ _ _ _ _ Hys).
  - intros L x Hin. apply add_level_In in Hin. destruct Hin as [Hin | [-> ->]].
    + exact (HE L x Hin).
    + split; assumption.
  - intros HL. destruct (Hprev HL) as [ys Hys]. apply (add_level_keeps_key _ _ _ _ _ Hys).
Qed.

Lemma fold_push_shape (a : analyzer) (sd : list string) (d l : Z) (rs : list string) (st : state) :
  Shape a sd d st -> (2 <= l)%Z -> (l = 2 \/ l <= d)%Z ->
  (l <> 2%Z -> exists ys, In ((l - 1)%Z, ys) (st_levels st)) ->
  (forall r, In r rs -> (l = 2%Z -> In r sd) /\ (l <> 2%Z -> In r (all_refs a))) ->
  Shape a sd d (fold_left (push l) rs st).
Proof.
  revert st. induction rs as [|r rs IH]; intros st Hs H2 Hd Hprev Hrs; simpl; [exact Hs|].
  destruct (Hrs r (or_introl eq_refl)) as [Ha Hb].
  destruct (push_shape a sd d l st r Hs H2 Hd Hprev Ha Hb) as [Hs' Hprev'].
  apply IH; try assumption. intros r' Hr'. apply Hrs. right. exact Hr'.
Qed.

Lemma init_fold_shape (a : analyzer) (sd : list string) (d : Z) (ds : list (string * detail))
    (st : state) :
  (forall e r, In e ds -> In r (dreferences (snd e)) -> In r sd) ->
  Shape a sd d st -> Shape a sd d (fold_left init_step ds st).
Proof.
  revert st. induction ds as [|[ref det] ds IH]; intros st Hds Hs; simpl; [exact Hs|].
  apply IH; [intros e r He Hr; apply (Hds e r); [right; exact He|exact Hr]|].
  unfold init_step. apply fold_push_shape.
  - destruct st as [lv vis q]. exact Hs.
  - lia.
  - left. reflexivity.
  - intros H. exfalso. apply H. reflexivity.
  - intros r Hr. split; [intros _; exact (Hds (ref, det) r (or_introl eq_refl) Hr)|].
    intros H. exfalso. apply H. reflexivity.
Qed.

Lemma body_shape (a : analyzer) (sd : list string) (d : Z) (cur : string) (lvl : Z)
    (lv : levels) (vis : list string) (rest : list (string * Z)) :
  Shape a sd d (mk_state lv vis ((cur, lvl) :: rest)) ->
  Shape a sd d (body a d cur lvl (mk_state lv vis rest)).
Proof.
  intros [HQ [HK HE]].
  destruct (HQ cur lvl (or_introl eq_refl)) as [H2 [_ [ys [Hys _]]]].
  assert (Hs : Shape a sd d (mk_state lv vis rest)).
  { split; [|split; assumption]. intros r l Hin. apply HQ. right. exact Hin. }
  unfold body. destruct (Z.leb d lvl) eqn:Hd; [exact Hs|].
  apply Z.leb_gt in Hd.
  destruct (String.eqb (lookup_node a cur) ""); [exact Hs|].
  apply fold_push_shape; [exact Hs|lia|right; lia| |].
  - intros _. exists ys. replace (lvl + 1 - 1)%Z with lvl by lia. exact Hys.
  - intros r Hr. split; [intros H; lia|]. intros _. apply (node_refs_in_graph a _ r Hr).
Qed.

Lemma bfs_shape (a : analyzer) (sd : list string) (d : Z) (fuel : nat) (st st' : state) :
  bfs_loop fuel a d st = Some st' -> Shape a sd d st -> Shape a sd d st'.
Proof.
  revert st. induction fuel as [|fuel IH]; intros [lv vis q] Hrun Hs;
    destruct q as [|[cur lvl] rest]; simpl in Hrun.
  - injection Hrun as <-. exact Hs.
  - discriminate.
  - injection Hrun as <-. exact Hs.
  - exact (IH _ Hrun (body_shape a sd d cur lvl lv vis rest Hs)).
Qed.

Lemma find_shape (a : analyzer) (direct_refs : list (string * detail)) (d : Z) (lv : levels) :
  find_indirect_references a direct_refs d = Some lv ->
  exists st, st_levels st = lv /\ Shape a (seeds direct_refs) d st.
Proof.
  unfold find_indirect_references.
  destruct (bfs_loop _ a d _) as [st|] eqn:E; [|discriminate].
  intros H. injection H as <-. exists st. split; [reflexivity|].
  apply (bfs_shape a _ d _ _ _ E). unfold init. apply init_fold_shape.
  - intros e r He Hr. unfold seeds. apply in_flat_map. exists e. split; assumption.
  - split; [intros r l []|split; [intros L xs []|intros L x [xs [[] _]]]].
Qed.

End ShapeFacts.

(** [find_indirect_references]: the levels present lie between 2 and
    [max(2, max_depth)] with no gap (a level above 2 comes with the level
    below it), and no level set is empty.  The analyzer's report
    ["Max depth: max(keys)"] is therefore at most [max(2, max_depth)]. *)
Theorem traversal_level_keys (a : Analyzer.analyzer)
    (direct_refs : list (string * Analyzer.detail)) (max_depth : Z) (lv : Traversal.levels) :
  Traversal.find_indirect_references a direct_refs max_depth = Some lv ->
  forall L xs, In (L, xs) lv ->
    (2 <= L)%Z /\ (L = 2 \/ L <= max_depth)%Z /\ xs <> [] /\
    (L <> 2%Z -> exists ys, In ((L - 1)%Z, ys) lv).
Proof.
  intros H. destruct (ShapeFacts.find_shape a direct_refs max_depth lv H) as [st [<- [_ [HK _]]]].
  exact HK.
Qed.

(** [find_indirect_references] reports only identifiers it was given:
    level 2 holds references listed by the direct entries, and every
    higher level holds references listed by nodes of the graph. *)
Theorem traversal_reports_listed_refs (a : Analyzer.analyzer)
    (direct_refs : list (string * Analyzer.detail)) (max_depth : Z) (lv : Traversal.levels) :
  Traversal.find_indirect_references a direct_refs max_depth = Some lv ->
  forall L x, Traversal.In_lv L x lv ->
    (L = 2%Z -> In x (TraversalShape.seeds direct_refs)) /\
    (L <> 2%Z -> In x (Traversal.all_refs a)).
Proof.
  intros H. destruct (ShapeFacts.find_shape a direct_refs max_depth lv H) as [st [<- [_ [_ HE]]]].
  exact HE.
Qed.

(** Witness of [traversal_level_keys] on the graph [A -> a, b], [b -> B]. *)
Lemma traversal_level_keys_witness :
  Traversal.find_indirect_references case_graph
    (Analyzer.find_direct_references case_graph ["A"]) 5 =
    Some [(2%Z, ["a"; "b"]); (3%Z, ["B"])] /\ (2 <= 3)%Z.
Proof.
  assert (E : Traversal.find_indirect_references case_graph
                (Analyzer.find_direct_references case_graph ["A"]) 5 =
              Some [(2%Z, ["a"; "b"]); (3%Z, ["B"])]) by (vm_compute; reflexivity).
  split; [exact E|].
  exact (proj1 (traversal_level_keys case_graph _ 5 _ E 3%Z ["B"] (or_intror (or_introl eq_refl)))).
Defined.

(** Witness of [traversal_reports_listed_refs] on the same graph. *)
Lemma traversal_reports_listed_refs_witness :
  Traversal.find_indirect_references case_graph
    (Analyzer.find_direct_references case_graph ["A"]) 5 =
    Some [(2%Z, ["a"; "b"]); (3%Z, ["B"])] /\ In "B" (Traversal.all_refs case_graph).
Proof.
  assert (E : Traversal.find_indirect_references case_graph
                (Analyzer.find_direct_references case_graph ["A"]) 5 =
              Some [(2%Z, ["a"; "b"]); (3%Z, ["B"])]) by (vm_compute; reflexivity).
  split; [exact E|].
  refine (proj2 (traversal_reports_listed_refs case_graph _ 5 _ E 3%Z "B" _) _).
  - exists ["B"]. split; [right; left; reflexivity|left; reflexivity].
  - discriminate.
Defined.

(* ------------------------------------------------------------------ *)
(** ** The extractor's report                                          *)

Module ReportFacts.

Lemma match_fold (db : list Database.circular) (rs : list string)
    (m0 : list (string * Database.circular)) (u0 : list string) :
  fold_left (fun '(matched, unmatched) ref =>
    match Database.search db ref with
    | [] => (matched, unmatched ++ [ref])%list
    | matches => (matched ++ map (fun m => (ref, m)) matches, unmatched)%list
    end) rs (m0, u0) =
  (m0 ++ flat_map (fun r => map (fun m => (r, m)) (Database.search db r)) rs,
   u0 ++ filter (fun r => match Database.search db r with [] => true | _ => false end) rs)%list.
Proof.
  revert m0 u0. induction rs as [|r rs IH]; intros m0 u0; simpl.
  - rewrite !app_nil_r. reflexivity.
  - destruct (Database.search db r) as [|c cs] eqn:E; rewrite IH; simpl.
    + rewrite <- app_assoc. reflexivity.
    + rewrite <- !app_assoc. reflexivity.
Qed.

Lemma match_references_eq (db : list Database.circular) (refs : list string) :
  ExtractorMain.match_references db refs =
  (flat_map (fun r => map (fun m => (r, m)) (Database.search db r)) (Sort.sorted_str refs),
   filter (fun r => match Database.search db r with [] => true | _ => false end)
     (Sort.sorted_str refs)).
Proof. unfold ExtractorMain.match_references. rewrite match_fold. reflexivity. Qed.

Lemma filter_nil_iff {A} (f : A -> bool) (l : list A) :
  filter f l = [] <-> forall x, In x l -> f x = false.
Proof.
  induction l as [|x l IH]; simpl; [split; [intros _ y []|reflexivity]|].
  destruct (f x) eqn:Hf; split.
  - discriminate.
  - intros H. rewrite (H x (or_introl eq_refl)) in Hf. discriminate.
  - intros H y [<-|Hy]; [exact Hf|exact (proj1 IH H y Hy)].
  - intros H. apply IH. intros y Hy. apply H. right. exact Hy.
Qed.

Lemma run_some (db : list Database.circular) (cur : string) (all : list string)
    (x : list (string * Database.circular) * list string) :
  ExtractorMain.run db cur all = Some x ->
  ExtractorMain.match_references db (filter_self_main cur all) = x.
Proof.
  unfold ExtractorMain.run. destruct db as [|c0 db']; [discriminate|].
  destruct (filter_self_main cur all); [discriminate|].
  intros H. injection H as H. exact H.
Qed.

End ReportFacts.

(** [main] of src/circular_reference_extractor.py: the report is skipped
    exactly when the database is empty or every extracted reference is
    taken for the current circular; otherwise the not-found list holds the
    kept references with no match, and the found list pairs every kept
    reference with each circular its search returns. *)
Theorem extractor_report_partition (db : list Database.circular) (cur : string)
    (all : list string) :
  (ExtractorMain.run db cur all = None <->
     db = [] \/ forall r, In r all -> is_self_main cur r = true) /\
  (forall matched unmatched,
     ExtractorMain.run db cur all = Some (matched, unmatched) ->
     (forall r, In r unmatched <->
        In r all /\ is_self_main cur r = false /\ Database.search db r = []) /\
     (forall r c, In (r, c) matched <->
        In r all /\ is_self_main cur r = false /\ In c (Database.search db r))).
Proof.
  assert (Hkept : forall r, In r (filter_self_main cur all) <->
                            In r all /\ is_self_main cur r = false).
  { intros r. unfold filter_self_main. rewrite filter_In, negb_true_iff. reflexivity. }
  split.
  - unfold ExtractorMain.run. destruct db as [|c0 db']; [split; [left; reflexivity|reflexivity]|].
    destruct (filter_self_main cur all) as [|r0 rs] eqn:E.
    + split; [intros _; right|reflexivity].
      intros r Hr. destruct (is_self_main cur r) eqn:Hs; [reflexivity|].
      destruct (proj2 (Hkept r) (conj Hr Hs)).
    + split; [discriminate|]. intros [H|H]; [discriminate|].
      destruct (proj1 (Hkept r0) (or_introl eq_refl)) as [Hin Hs]. rewrite (H r0 Hin) in Hs. discriminate.
  - intros matched unmatched H. apply ReportFacts.run_some in H.
    rewrite ReportFacts.match_references_eq in H. injection H as Hm Hu.
    assert (Hperm : forall r, In r (Sort.sorted_str (filter_self_main cur all)) <->
                              In r all /\ is_self_main cur r = false).
    { intros r. rewrite <- Hkept. unfold Sort.sorted_str. split; apply Permutation_in;
        [|apply Permutation_sym]; apply SortFacts.sort_by_perm. }
    split.
    + intros r. rewrite <- Hu, filter_In, Hperm.
      destruct (Database.search db r); [intuition|].
      split; [intros [_ H]|intros [_ [_ H]]]; discriminate.
    + intros r c. rewrite <- Hm, in_flat_map. split.
      * intros [r' [Hr' Hc]]. apply in_map_iff in Hc. destruct Hc as [c' [Heq Hc']].
        injection Heq as -> ->. apply Hperm in Hr'. tauto.
      * intros [Hr [Hs Hc]]. exists r. split; [apply Hperm; tauto|].
        apply in_map_iff. exists c. split; [reflexivity|exact Hc].
Qed.

(** Witness of [extractor_report_partition]: one circular in the
    database, one reference found and one not found. *)
Lemma extractor_report_partition_witness :
  ExtractorMain.run [Database.mk_circular "Circ A" "SEBI/HO/A/1"] "SEBI/HO/Z/9"
    ["SEBI/HO/Q/2"; "SEBI/HO/A/1"] =
    Some ([("SEBI/HO/A/1", Database.mk_circular "Circ A" "SEBI/HO/A/1")], ["SEBI/HO/Q/2"]) /\
  Database.search [Database.mk_circular "Circ A" "SEBI/HO/A/1"] "SEBI/HO/Q/2" = [].
Proof.
  assert (E : ExtractorMain.run [Database.mk_circular "Circ A" "SEBI/HO/A/1"] "SEBI/HO/Z/9"
    ["SEBI/HO/Q/2"; "SEBI/HO/A/1"] =
    Some ([("SEBI/HO/A/1", Database.mk_circular "Circ A" "SEBI/HO/A/1")], ["SEBI/HO/Q/2"]))
    by (vm_compute; reflexivity).
  split; [exact E|].
  exact (proj2 (proj2 (proj1 (proj1 (proj2 (extractor_report_partition _ _ _) _ _ E)
    "SEBI/HO/Q/2") (or_introl eq_refl)))).
Defined.

(* ------------------------------------------------------------------ *)
(** ** The knowledge-graph script's main loop                          *)

Module KGMainFacts.
Import KGMain.

Lemma perm_filter_length {A} (f : A -> bool) (l l' : list A) :
  Permutation l l' -> List.length (filter f l) = List.length (filter f l').
Proof.
  induction 1 as [|x l l' _ IH|x y l|l l' l'' _ IH1 _ IH2]; simpl.
  - reflexivity.
  - destruct (f x); simpl; lia.
  - destruct (f x), (f y); simpl; lia.
  - lia.
Qed.

Lemma perm_list_sum_map {A} (f : A -> nat) (l l' : list A) :
  Permutation l l' -> list_sum (map f l) = list_sum (map f l').
Proof.
  induction 1 as [|x l l' _ IH|x y l|l l' l'' _ IH1 _ IH2]; simpl; lia.
Qed.

Lemma build_fold (l : list (string * pdf_result)) (g0 : KG.graph) (st0 : extraction_stats) :
  fold_left step l (g0, st0) =
  (KG.add_all g0 (flat_map (fun p => match snd p with
                                     | Extracted c rs => [(fst p, c, rs)]
                                     | Failed => []
                                     end) l),
   mk_stats (total_pdfs st0)
     (successful_extractions st0 +
        List.length (filter (fun p => match snd p with Extracted _ _ => true | Failed => false end) l))
     (failed_extractions st0 +
        List.length (filter (fun p => match snd p with Extracted _ _ => false | Failed => true end) l))
     (total_references st0)).
Proof.
  revert g0 st0. induction l as [|[name r] l IH]; intros g0 [t s f tr]; simpl.
  - rewrite !Nat.add_0_r. reflexivity.
  - destruct r as [c rs|]; rewrite IH; simpl; f_equal; f_equal; lia.
Qed.

Lemma ext_keys (l : list (string * pdf_result)) (name : string) :
  In name (map KG.call_key (flat_map (fun p => match snd p with
                                                | Extracted c rs => [(fst p, c, rs)]
                                                | Failed => []
                                                end) l)) <->
  exists c rs, In (name, Extracted c rs) l.
Proof.
  induction l as [|[n r] l IH]; simpl; [split; [intros []|intros [c [rs []]]]|].
  destruct r as [c rs|]; simpl; rewrite IH; split.
  - intros [->|[c' [rs' H]]]; [exists c, rs; left; reflexivity|exists c', rs'; right; exact H].
  - intros [c' [rs' [Heq|H]]]; [injection Heq as -> _ _; left; reflexivity|].
    right. exists c', rs'. exact H.
  - intros [c' [rs' H]]. exists c', rs'. right. exact H.
  - intros [c' [rs' [Heq|H]]]; [discriminate|exists c', rs'; exact H].
Qed.

Lemma ext_length (l : list (string * pdf_result)) :
  List.length (flat_map (fun p => match snd p with
                                  | Extracted c rs => [(fst p, c, rs)]
                                  | Failed => []
                                  end) l) =
  List.length (filter (fun p => match snd p with Extracted _ _ => true | Failed => false end) l).
Proof. induction l as [|[n [c rs|]] l IH]; simpl; lia. Qed.

Lemma ext_refs (l : list (string * pdf_result)) :
  list_sum (map (fun '(_, _, rs) => List.length rs)
     (flat_map (fun p => match snd p with
                         | Extracted c rs => [(fst p, c, rs)]
                         | Failed => []
                         end) l)) =
  list_sum (map (fun p => match snd p with Extracted _ rs => List.length rs | Failed => 0 end) l).
Proof. induction l as [|[n [c rs|]] l IH]; simpl; lia. Qed.

End KGMainFacts.

(** [main] of src/circular_knowledge_graph.py: every PDF is counted once,
    as a success or a failure; [total_references] is never updated and
    stays 0; the graph has one node per file name that was extracted
    (at most one per success) and one edge per reference of each
    extraction. *)
Theorem kg_main_counts (pdfs : list (string * KGMain.pdf_result)) :
  let g := fst (KGMain.build pdfs) in
  let st := snd (KGMain.build pdfs) in
  KGMain.total_pdfs st = List.length pdfs /\
  KGMain.successful_extractions st + KGMain.failed_extractions st = KGMain.total_pdfs st /\
  KGMain.successful_extractions st =
    List.length (filter (fun p => match snd p with
                                  | KGMain.Extracted _ _ => true
                                  | KGMain.Failed => false
                                  end) pdfs) /\
  KGMain.total_references st = 0 /\
  (forall name, In name (map fst (KG.nodes g)) <->
                exists c rs, In (name, KGMain.Extracted c rs) pdfs) /\
  List.length (KG.nodes g) <= KGMain.successful_extractions st /\
  List.length (KG.edges g) =
    list_sum (map (fun p => match snd p with
                            | KGMain.Extracted _ rs => List.length rs
                            | KGMain.Failed => 0
                            end) pdfs).
Proof.
  cbv zeta. unfold KGMain.build. rewrite KGMainFacts.build_fold. simpl.
  set (sorted := Sort.sort_by _ pdfs).
  assert (Hp : Permutation sorted pdfs) by apply SortFacts.sort_by_perm.
  set (ext := flat_map _ sorted).
  assert (Hc : forall b : bool,
            List.length (filter (fun p : string * KGMain.pdf_result =>
              match snd p with KGMain.Extracted _ _ => b | KGMain.Failed => negb b end) sorted) =
            List.length (filter (fun p : string * KGMain.pdf_result =>
              match snd p with KGMain.Extracted _ _ => b | KGMain.Failed => negb b end) pdfs))
    by (intros b; apply KGMainFacts.perm_filter_length, Hp).
  pose proof (Hc true) as Ht. pose proof (Hc false) as Hf. simpl in Ht, Hf.
  split; [reflexivity|]. split.
  { rewrite Ht, Hf. clear.
    induction pdfs as [|[n [c rs|]] l IH]; simpl; lia. }
  split; [exact Ht|]. split; [reflexivity|]. split.
  { intros name. rewrite kg_nodes_keys. unfold ext. rewrite KGMainFacts.ext_keys.
    split; intros [c [rs H]]; exists c, rs;
      [apply (Permutation_in _ Hp)|apply (Permutation_in _ (Permutation_sym Hp))]; exact H. }
  split.
  { rewrite <- KGMainFacts.ext_length. fold ext.
    rewrite <- (length_map fst (KG.nodes _)), <- (length_map KG.call_key ext).
    apply NoDup_incl_length; [apply kg_nodes_nodup|].
    intros id Hid. apply kg_nodes_keys. exact Hid. }
  { rewrite kg_edges_length. unfold ext. rewrite KGMainFacts.ext_refs.
    apply KGMainFacts.perm_list_sum_map, Hp. }
Qed.

(** An empty short form of the current circular number (for instance
    from a number that starts with an opening parenthesis) is handled in
    opposite ways: [main] of src/circular_reference_extractor.py takes
    every reference for a self-reference and stops before matching, while
    [extract_circular_references] of src/circular_knowledge_graph.py
    keeps every reference. *)
Theorem empty_short_form (db : list Database.circular) (cur : string) (refs : list string) :
  (circ_short_main cur = "" -> ExtractorMain.run db cur refs = None) /\
  (circ_short_kg cur = "" -> filter_self_kg cur refs = refs).
Proof.
  split.
  - intros Hm. assert (Hf : filter_self_main cur refs = []).
    { apply ReportFacts.filter_nil_iff. intros r _.
      unfold is_self_main. rewrite Hm, contains_nil. reflexivity. }
    unfold ExtractorMain.run. rewrite Hf. destruct db; reflexivity.
  - intros Hk. unfold filter_self_kg. induction refs as [|r rs IH]; [reflexivity|].
    simpl. unfold is_self_kg at 1. rewrite Hk. simpl. f_equal. exact IH.
Qed.

(** Witness of [empty_short_form] at the circular number [(X)]. *)
Lemma empty_short_form_witness :
  circ_short_main "(X)" = "" /\ circ_short_kg "(X)" = "" /\
  ExtractorMain.run [Database.mk_circular "Circ A" "SEBI/HO/A/1"] "(X)" ["SEBI/HO/A/1"] = None /\
  filter_self_kg "(X)" ["SEBI/HO/A/1"] = ["SEBI/HO/A/1"].
Proof.
  split; [reflexivity|]. split; [reflexivity|]. split.
  - exact (proj1 (empty_short_form [Database.mk_circular "Circ A" "SEBI/HO/A/1"] "(X)"
      ["SEBI/HO/A/1"]) eq_refl).
  - exact (proj2 (empty_short_form [Database.mk_circular "Circ A" "SEBI/HO/A/1"] "(X)"
      ["SEBI/HO/A/1"]) eq_refl).
Defined.

(** Witness of [most_referenced_top_ten]: [a.pdf] cites [X] and [Y],
    [b.pdf] cites [X]. *)
Lemma most_referenced_top_ten_witness :
  KGStats.get_most_referenced
    (KG.add_all KG.empty [("a.pdf", "A", ["X"; "Y"]); ("b.pdf", "B", ["X"])]) =
    [("X", 2); ("Y", 1)] /\
  2 = KGStats.count_target
        (KG.add_all KG.empty [("a.pdf", "A", ["X"; "Y"]); ("b.pdf", "B", ["X"])]) "X".
Proof.
  assert (E : KGStats.get_most_referenced
    (KG.add_all KG.empty [("a.pdf", "A", ["X"; "Y"]); ("b.pdf", "B", ["X"])]) =
    [("X", 2); ("Y", 1)]) by (vm_compute; reflexivity).
  split; [exact E|].
  refine (proj1 (proj1 (proj2 (proj2 (proj2 (most_referenced_top_ten _)))) "X" 2 _)).
  rewrite E. left. reflexivity.
Defined.

(** Witness of [most_outgoing_top_ten] on the same two files. *)
Lemma most_outgoing_top_ten_witness :
  KGStats.get_most_outgoing_refs
    (KG.add_all KG.empty [("a.pdf", "A", ["X"; "Y"]); ("b.pdf", "B", ["X"])]) =
    [("A", 2); ("B", 1)] /\
  exists id n, In (id, n) (KG.nodes
                 (KG.add_all KG.empty [("a.pdf", "A", ["X"; "Y"]); ("b.pdf", "B", ["X"])])) /\
    KG.circular_no n = "A" /\ KG.reference_count n = 2.
Proof.
  assert (E : KGStats.get_most_outgoing_refs
    (KG.add_all KG.empty [("a.pdf", "A", ["X"; "Y"]); ("b.pdf", "B", ["X"])]) =
    [("A", 2); ("B", 1)]) by (vm_compute; reflexivity).
  split; [exact E|].
  refine (proj1 (proj2 (proj2 (most_outgoing_top_ten _))) "A" 2 _).
  rewrite E. left. reflexivity.
Defined.

(** Witness of [fuzzy_matches_distinct_node_ids] on [spaced_graph]. *)
Lemma fuzzy_matches_distinct_node_ids_witness :
  Analyzer.fuzzy_match_reference spaced_graph "SEBI HO ABC 2024 5" = ["f.pdf"] /\
  Dict.has_key "f.pdf" (Analyzer.nodes spaced_graph) = true.
Proof.
  assert (E : Analyzer.fuzzy_match_reference spaced_graph "SEBI HO ABC 2024 5" = ["f.pdf"])
    by (vm_compute; reflexivity).
  split; [exact E|].
  refine (proj2 (fuzzy_matches_distinct_node_ids _ _ "SEBI HO ABC 2024 5") "f.pdf" _).
  change (Analyzer.load_graph _ _) with spaced_graph. rewrite E. left. reflexivity.
Defined.

(** Witness of [kg_main_counts]: one extraction and one failure. *)
Lemma kg_main_counts_witness :
  KGMain.successful_extractions
    (snd (KGMain.build [("b.pdf", KGMain.Extracted "B" ["X"]); ("a.pdf", KGMain.Failed)])) = 1 /\
  In "b.pdf" (map fst (KG.nodes
    (fst (KGMain.build [("b.pdf", KGMain.Extracted "B" ["X"]); ("a.pdf", KGMain.Failed)])))).
Proof.
  split; [vm_compute; reflexivity|].
  refine (proj2 (proj1 (proj2 (proj2 (proj2 (proj2
    (kg_main_counts [("b.pdf", KGMain.Extracted "B" ["X"]); ("a.pdf", KGMain.Failed)]))))) "b.pdf")
    _).
  exists "B", ["X"]. left. reflexivity.
Defined.
